(** * build.py: the render-and-wait loop of the wiki pre-renderer

    A shallow embedding of [build.py] and the properties of its entry
    discovery, readiness predicate and per-entry failure handling.

    Modelling conventions.
    - File names and page markup are byte strings ([string], UTF-8); the
      order on names is the bytewise lexicographic one, which is the code
      point order Python uses on POSIX paths of one directory.
    - Text read from the DOM is a JavaScript string: a list of 16-bit code
      units ([list N]).
    - The program is written in a state-and-exception monad over the file
      system, the set of open pages and the log of observable actions.
    - The browser and the disk are oracles: [context.new_page], [page.goto],
      [page.wait_for_function], [page.content] and [Path.write_text] may
      raise any subclass of [Exception].  A call of the browser that raises
      leaves the state as it was; [write_text] opens the file for writing
      first, so it raises either at the opening, the file being as it was,
      or after it, the file then holding the part of the text that reached
      it.  The page is live: between the end of the wait and the capture its
      document may change.  [print], the set-up calls and [page.close] are
      total, and the output path is absent or a directory. *)

From Stdlib Require Import String Ascii List NArith Lia DecimalString.
From stdpp Require Import base strings list sorting gmap.
Import ListNotations.

Local Open Scope string_scope.
Local Open Scope list_scope.
Local Open Scope nat_scope.

(** ** Strings as Python uses them here *)

Module Str.

Fixpoint take (n : nat) (s : string) : string :=
  match n, s with
  | S n', String a t => String a (take n' t)
  | _, _ => ""
  end.

Fixpoint drop (n : nat) (s : string) : string :=
  match n, s with
  | S n', String _ t => drop n' t
  | _, _ => s
  end.

(** [s.rfind(c)]: index of the last occurrence, [None] for Python's -1. *)
Fixpoint rfind (c : ascii) (s : string) : option nat :=
  match s with
  | "" => None
  | String a t =>
      match rfind c t with
      | Some i => Some (S i)
      | None => if Ascii.eqb a c then Some 0 else None
      end
  end.

Definition lower_ascii (a : ascii) : ascii :=
  let n := N_of_ascii a in
  if ((65 <=? n) && (n <=? 90))%N then ascii_of_N (n + 32) else a.

(** [s.lower()].  Only A-Z are folded: no character outside ASCII lowers
    to one of [h], [t], [m], [l] or [.], so comparing the result with
    [".html"] gives what Python's Unicode-aware [lower] gives. *)
Fixpoint lower (s : string) : string :=
  match s with
  | "" => ""
  | String a t => String (lower_ascii a) (lower t)
  end.

(** [str(n)] for a non-negative integer. *)
Definition of_N (n : N) : string := NilEmpty.string_of_uint (N.to_uint n).

End Str.

(** ** pathlib *)

Module Pathlib.

(** [PurePath.suffix] and [PurePath.stem] of a final path component: the
    split is at the last dot, unless that dot is the first or the last
    character of the name. *)
Definition split_at (name : string) : option nat :=
  match Str.rfind "." name with
  | Some i => if (0 <? i) && (i <? String.length name - 1) then Some i else None
  | None => None
  end.

Definition suffix (name : string) : string :=
  match split_at name with
  | Some i => Str.drop i name
  | None => ""
  end.

Definition stem (name : string) : string :=
  match split_at name with
  | Some i => Str.take i name
  | None => name
  end.

End Pathlib.

(** ** Configuration (module-level constants of build.py) *)

Definition ENTRIES_DIR : string := "entries".
Definition WIKI_DIR : string := "wiki".
Definition TEMPLATE : string := "data.html".
Definition HOST : string := "127.0.0.1".
Definition WAIT_TIMEOUT_MS : N := 15000%N.

(** ** Entry discovery *)

(** A child of the entries directory as [iterdir] yields it: its name and
    whether [is_file()] holds of it. *)
Record dirent := Dirent { d_name : string; d_is_file : bool }.

Global Instance dirent_eq_dec : EqDecision dirent.
Proof. solve_decision. Defined.

(** The filter of the list comprehension:
    [f.is_file() and f.suffix.lower() == ".html"]. *)
Definition is_entry (f : dirent) : bool :=
  d_is_file f && bool_decide (Str.lower (Pathlib.suffix (d_name f)) = ".html").

(** Paths of one directory compare by their last component. *)
Definition path_le (a b : dirent) : Prop := (d_name a ≤ d_name b)%string.

Global Instance path_le_dec : RelDecision path_le.
Proof. intros a b. unfold path_le. apply _. Defined.

(** [sorted([f for f in ENTRIES_DIR.iterdir() if ...])] *)
Definition discover (listing : list dirent) : list dirent :=
  merge_sort path_le (filter (fun f => is_entry f = true) listing).

(** ** The readiness predicate (the script handed to wait_for_function) *)

Module JS.

(** A JavaScript string: its UTF-16 code units. *)
Abbreviation jsstring := (list N).

(** Code units of an ASCII literal. *)
Fixpoint lit (s : string) : jsstring :=
  match s with
  | "" => []
  | String a t => N_of_ascii a :: lit t
  end.

(** WhiteSpace and LineTerminator of ECMA-262, the code points that
    [String.prototype.trim] strips. *)
Definition is_space (c : N) : bool :=
  ((c =? 0x9) || (c =? 0xA) || (c =? 0xB) || (c =? 0xC) || (c =? 0xD) ||
   (c =? 0x20) || (c =? 0xA0) || (c =? 0x1680) ||
   ((0x2000 <=? c) && (c <=? 0x200A)) ||
   (c =? 0x2028) || (c =? 0x2029) || (c =? 0x202F) || (c =? 0x205F) ||
   (c =? 0x3000) || (c =? 0xFEFF))%N.

Fixpoint trimStart (s : jsstring) : jsstring :=
  match s with
  | [] => []
  | c :: t => if is_space c then trimStart t else s
  end.

Definition trimEnd (s : jsstring) : jsstring := rev (trimStart (rev s)).

Definition trim (s : jsstring) : jsstring := trimEnd (trimStart s).

Definition lower_unit (c : N) : N :=
  if ((65 <=? c) && (c <=? 90))%N then (c + 32)%N else c.

(** [s.toLowerCase()].  Only A-Z are folded.  The one letter of the
    sentinel that a character outside ASCII can produce is the [i] of
    U+0130, which comes with a combining dot after it, so the occurrences
    of ['loading...'] are those of the Unicode-aware lowering. *)
Definition toLowerCase (s : jsstring) : jsstring := map lower_unit s.

Fixpoint startsWith (needle s : jsstring) : bool :=
  match needle, s with
  | [], _ => true
  | _ :: _, [] => false
  | a :: needle', b :: s' => (a =? b)%N && startsWith needle' s'
  end.

(** [s.includes(needle)] *)
Fixpoint includes (needle s : jsstring) : bool :=
  startsWith needle s ||
  match s with
  | [] => false
  | _ :: t => includes needle t
  end.

(** The element found by [getElementById]: [innerText] is undefined on
    elements that are not HTML elements, [textContent] is never null on
    an element but the script guards it all the same. *)
Record element := Element {
  innerText : option jsstring;
  textContent : option jsstring }.

(** [a || b] on values that are strings, undefined or null: the empty
    string is falsy too. *)
Definition or_else (a : option jsstring) (b : jsstring) : jsstring :=
  match a with
  | Some (c :: s) => c :: s
  | _ => b
  end.

Definition SENTINEL : jsstring := lit "loading...".

(** The text the script inspects:
    [(el.innerText || el.textContent || '')]. *)
Definition raw_text (el : element) : jsstring :=
  or_else (innerText el) (or_else (textContent el) []).

(** The arrow function of lines 95-102; the argument is the result of
    [document.getElementById('projectContent')], [None] for null. *)
Definition ready (projectContent : option element) : bool :=
  match projectContent with
  | None => false                                   (* if (!el) return false *)
  | Some el =>
      let txt := trim (raw_text el) in
      match txt with
      | [] => false                                 (* if (!txt) return false *)
      | _ :: _ =>
          if includes SENTINEL (toLowerCase txt) then false
          else true
      end
  end.

End JS.

(** ** Exceptions, pages and the world *)

(** The subclasses of [Exception] the script tells apart: Playwright's
    [TimeoutError], and everything else, with its class name. *)
Inductive exn :=
  | PlaywrightTimeoutError (msg : string)
  | OtherError (cls msg : string).

Definition is_timeout (e : exn) : bool :=
  match e with
  | PlaywrightTimeoutError _ => true
  | OtherError _ _ => false
  end.

(** What the script can observe of a document: the element with id
    [projectContent], and the serialisation [page.content()] returns. *)
Record document := Document { projectContent : option JS.element; markup : string }.

Definition blank : document := Document None "<html><head></head><body></body></html>".

(** One polling instant of [wait_for_function] after the first: the
    document as the client-side script has left it by then, or a fault of
    the page that makes the wait raise. *)
Inductive poll :=
  | Tick (d : document)
  | Fault (e : exn).

Record console_message := ConsoleMessage { c_type : string; c_text : string }.

(** What navigating to a URL does. *)
Record page_script := PageScript {
  console : list console_message;   (* messages the page writes while loading *)
  nav : option exn;                 (* [goto] raises *)
  loaded : document;                     (* the document once the network is idle *)
  later : list poll;                (* the polling instants within WAIT_TIMEOUT_MS *)
  capture : option exn;             (* [content] raises *)
  moved : option document }.        (* the document the page has changed to between
                                       the end of the wait and the capture, if it has *)

(** How [write_text] fails: [open(path, "w")] raises and the file is as it
    was, or the file has been created or emptied by then and the exception
    comes when the first [reached] bytes of the text are in it. *)
Inductive write_fault :=
  | FailsAtOpen (x : exn)
  | FailsAfterOpen (x : exn) (reached : nat).

Definition fault_exn (f : write_fault) : exn :=
  match f with
  | FailsAtOpen x => x
  | FailsAfterOpen x _ => x
  end.

Inductive path_state :=
  | Missing
  | NotADirectory
  | Directory (listing : list dirent).

Record world := World {
  cwd : string;
  entries_dir : path_state;
  wiki_before : option (gmap string string);   (* [None]: wiki/ does not exist *)
  free_port : N;
  new_page_exn : nat -> option exn;            (* by number of pages made so far *)
  site : string -> page_script;                (* by URL *)
  write_exn : string -> option write_fault }.  (* by file name under wiki/ *)

(** ** Observable actions *)

Inductive message :=
  | MsgNothing                                  (* line 74 *)
  | MsgRendering (entry_name out_path : string) (* line 81 *)
  | MsgConsole (type text : string)             (* line 87 *)
  | MsgWarnTimeout (name : string)              (* line 106 *)
  | MsgSaved (out_path : string) (size : nat)   (* line 111 *)
  | MsgFailed (name : string) (e : exn)         (* line 114 *)
  | MsgDone.                                    (* line 121 *)

Inductive event :=
  | EvMkdir (path : string)
  | EvServe (port : N)
  | EvSleep
  | EvLaunch
  | EvNewContext
  | EvIterdir (path : string)
  | EvPrint (m : message)
  | EvNewPage (p : nat)
  | EvOn (p : nat)
  | EvGoto (p : nat) (url : string)
  | EvWait (p : nat)
  | EvContent (p : nat)
  | EvWrite (path : string)
  | EvClose (p : nat)
  | EvBrowserClose
  | EvStop.

(** ** Program state *)

Record page_state := PageState {
  p_hook : bool;            (* the console listener is registered *)
  p_dom : document;
  p_later : list poll;
  p_capture : option exn;
  p_moved : option document }.

Record state := State {
  wiki : option (gmap string string);
  pages : gmap nat page_state;     (* the open pages of the context *)
  next_page : nat;
  log : list event }.

Definition set_wiki (f : option (gmap string string)) (st : state) : state :=
  State f (pages st) (next_page st) (log st).
Definition set_pages (ps : gmap nat page_state) (st : state) : state :=
  State (wiki st) ps (next_page st) (log st).
Definition emit (e : event) (st : state) : state :=
  State (wiki st) (pages st) (next_page st) (log st ++ [e]).

Definition initial (w : world) : state := State (wiki_before w) ∅ 0 [].

(** ** The monad: state, exceptions and SystemExit *)

Inductive outcome (A : Type) :=
  | Ok (a : A)
  | Raise (e : exn)           (* an [Exception] propagates *)
  | Exit (msg : string).      (* [SystemExit] propagates *)
Arguments Ok {A} a.
Arguments Raise {A} e.
Arguments Exit {A} msg.

Definition M (A : Type) : Type := state -> outcome A * state.

Definition ret {A} (a : A) : M A := fun st => (Ok a, st).

Definition bind {A B} (m : M A) (k : A -> M B) : M B :=
  fun st =>
    match m st with
    | (Ok a, st') => k a st'
    | (Raise e, st') => (Raise e, st')
    | (Exit msg, st') => (Exit msg, st')
    end.

Definition raise {A} (e : exn) : M A := fun st => (Raise e, st).
Definition sys_exit {A} (msg : string) : M A := fun st => (Exit msg, st).
Definition act (e : event) : M unit := fun st => (Ok tt, emit e st).
Definition print (m : message) : M unit := act (EvPrint m).

Notation "x <- m ;; k" := (bind m (fun x => k))
  (at level 100, m at next level, right associativity).
Notation "m ;; k" := (bind m (fun _ => k))
  (at level 100, right associativity).

(** [try: body / except C as e: handler e], where [catches] tells the
    exceptions of class [C].  [SystemExit] is no [Exception]. *)
Definition try_except {A} (catches : exn -> bool) (body : M A) (handler : exn -> M A) : M A :=
  fun st =>
    match body st with
    | (Raise e, st') => if catches e then handler e st' else (Raise e, st')
    | r => r
    end.

(** [try: body / finally: cleanup] *)
Definition try_finally {A} (body : M A) (cleanup : M unit) : M A :=
  fun st =>
    let '(r, st') := body st in
    match cleanup st' with
    | (Ok _, st'') => (r, st'')
    | (Raise e, st'') => (Raise e, st'')
    | (Exit msg, st'') => (Exit msg, st'')
    end.

(** [for x in xs: body x] *)
Fixpoint for_each {A} (body : A -> M unit) (xs : list A) : M unit :=
  match xs with
  | [] => ret tt
  | x :: xs' => body x ;; for_each body xs'
  end.

Definition any_exception (_ : exn) : bool := true.

(** ** The collaborators: pathlib on the world's file system, Playwright *)

Definition path_exists (p : path_state) : bool :=
  match p with Missing => false | _ => true end.
Definition path_is_dir (p : path_state) : bool :=
  match p with Directory _ => true | _ => false end.

Definition closed_error : exn :=
  OtherError "Error" "Target page, context or browser has been closed".

(** The polling of [wait_for_function]: the predicate is evaluated on the
    current document and then at each later instant, until it holds, the
    page faults, or the instants of the timeout window are used up.  The
    result carries the document the page is left with. *)
Inductive wait_result :=
  | Ready (d : document) (rest : list poll)
  | TimedOut (d : document)
  | Faulted (e : exn) (d : document) (rest : list poll).

Fixpoint poll_until (cur : document) (tl : list poll) : wait_result :=
  if JS.ready (projectContent cur) then Ready cur tl
  else match tl with
       | [] => TimedOut cur
       | Tick d :: tl' => poll_until d tl'
       | Fault e :: tl' => Faulted e cur tl'
       end.

Definition timeout_error : exn :=
  PlaywrightTimeoutError "Page.wait_for_function: Timeout 15000ms exceeded.".

Section Program.

Variable w : world.

(** [WIKI_DIR.mkdir(parents=True, exist_ok=True)] *)
Definition mkdir_wiki : M unit :=
  fun st => (Ok tt, emit (EvMkdir WIKI_DIR)
                         (set_wiki (Some (default ∅ (wiki st))) st)).

(** [ENTRIES_DIR.iterdir()] *)
Definition iterdir : M (list dirent) :=
  fun st =>
    match entries_dir w with
    | Directory l => (Ok l, emit (EvIterdir ENTRIES_DIR) st)
    | NotADirectory => (Raise (OtherError "NotADirectoryError" ENTRIES_DIR), st)
    | Missing => (Raise (OtherError "FileNotFoundError" ENTRIES_DIR), st)
    end.

(** [out_path.write_text(data, encoding="utf-8")] for [out_path] the file
    [name] of wiki/. *)
Definition write_text (name data : string) : M unit :=
  fun st =>
    let st := emit (EvWrite (WIKI_DIR +:+ "/" +:+ name)) st in
    match wiki st with
    | None => (Raise (OtherError "FileNotFoundError" name), st)
    | Some files =>
        match write_exn w name with
        | Some (FailsAtOpen e) => (Raise e, st)
        | Some (FailsAfterOpen e reached) =>
            (Raise e, set_wiki (Some (<[name := Str.take reached data]> files)) st)
        | None => (Ok tt, set_wiki (Some (<[name := data]> files)) st)
        end
    end.

(** [out_path.stat().st_size] *)
Definition stat_size (name : string) : M nat :=
  fun st =>
    match wiki st ≫= (fun files => files !! name) with
    | Some data => (Ok (String.length data), st)
    | None => (Raise (OtherError "FileNotFoundError" name), st)
    end.

(** [context.new_page()] *)
Definition new_page : M nat :=
  fun st =>
    match new_page_exn w (next_page st) with
    | Some e => (Raise e, st)
    | None =>
        let p := next_page st in
        (Ok p, emit (EvNewPage p)
                 (State (wiki st)
                        (<[p := PageState false blank [] None None]> (pages st))
                        (S p) (log st)))
    end.

(** [page.on("console", handler)] *)
Definition page_on (p : nat) : M unit :=
  fun st =>
    (Ok tt, emit (EvOn p)
              (set_pages (alter (fun ps => PageState true (p_dom ps) (p_later ps)
                                             (p_capture ps) (p_moved ps))
                                p (pages st)) st)).

(** The handler of line 87, run on every console message of a page it is
    registered on. *)
Definition console_handler (msg : console_message) : list event :=
  if bool_decide (c_type msg = "error") || bool_decide (c_type msg = "warning")
  then [EvPrint (MsgConsole (c_type msg) (c_text msg))]
  else [].

(** [page.goto(url, wait_until="networkidle", timeout=20_000)] *)
Definition goto (p : nat) (url : string) : M unit :=
  fun st =>
    let st := emit (EvGoto p url) st in
    match pages st !! p with
    | None => (Raise closed_error, st)
    | Some ps =>
        let sc := site w url in
        let heard := if p_hook ps then flat_map console_handler (console sc) else [] in
        let st := State (wiki st) (pages st) (next_page st) (log st ++ heard) in
        match nav sc with
        | Some e => (Raise e, st)
        | None =>
            (Ok tt, set_pages (<[p := PageState (p_hook ps) (loaded sc) (later sc)
                                            (capture sc) (moved sc)]>
                                 (pages st)) st)
        end
    end.

(** [page.wait_for_function(ready, timeout=WAIT_TIMEOUT_MS)] *)
Definition wait_for_function (p : nat) : M unit :=
  fun st =>
    let st := emit (EvWait p) st in
    match pages st !! p with
    | None => (Raise closed_error, st)
    | Some ps =>
        let leave d rest :=
          set_pages (<[p := PageState (p_hook ps) d rest (p_capture ps) (p_moved ps)]>
                       (pages st)) st in
        match poll_until (p_dom ps) (p_later ps) with
        | Ready d rest => (Ok tt, leave d rest)
        | TimedOut d => (Raise timeout_error, leave d [])
        | Faulted e d rest => (Raise e, leave d rest)
        end
    end.

(** [page.content()]: the serialisation of the document the page shows
    when it is called, which is the one the wait left unless the page has
    changed since. *)
Definition content (p : nat) : M string :=
  fun st =>
    let st := emit (EvContent p) st in
    match pages st !! p with
    | None => (Raise closed_error, st)
    | Some ps =>
        match p_capture ps with
        | Some e => (Raise e, st)
        | None =>
            let d := default (p_dom ps) (p_moved ps) in
            (Ok (markup d),
             set_pages (<[p := PageState (p_hook ps) d (p_later ps) (p_capture ps) None]>
                          (pages st)) st)
        end
    end.

(** [page.close()] *)
Definition close (p : nat) : M unit :=
  fun st => (Ok tt, emit (EvClose p) (set_pages (delete p (pages st)) st)).

(** ** build.py *)

(** Lines 29-31, run when the module is loaded. *)
Definition module_init : M unit :=
  (if negb (path_exists (entries_dir w)) || negb (path_is_dir (entries_dir w))
   then sys_exit ("Entries directory not found: " +:+ cwd w +:+ "/" +:+ ENTRIES_DIR)
   else ret tt) ;;
  mkdir_wiki.

(** The body of the [for] loop, lines 79-117. *)
Definition render_entry (base_url : string) (entry : dirent) : M unit :=
  let name := Pathlib.stem (d_name entry) in
  let src_url := base_url +:+ "/" +:+ TEMPLATE +:+ "?id=" +:+ name in
  print (MsgRendering (d_name entry) (WIKI_DIR +:+ "/" +:+ d_name entry)) ;;
  page <- new_page ;;
  page_on page ;;
  try_finally
    (try_except any_exception
       (goto page src_url ;;
        try_except is_timeout
          (wait_for_function page)
          (fun _ => print (MsgWarnTimeout name)) ;;
        rendered_html <- content page ;;
        let out_path := d_name entry in
        write_text out_path rendered_html ;;
        size <- stat_size out_path ;;
        print (MsgSaved (WIKI_DIR +:+ "/" +:+ out_path) size))
       (fun e => print (MsgFailed name e)))
    (close page).

(** Lines 52-121.  The [with] block answers whether the function returned
    from inside it (line 76). *)
Definition render_all : M unit :=
  let port := free_port w in
  act (EvServe port) ;;
  act EvSleep ;;
  let base_url := "http://" +:+ HOST +:+ ":" +:+ Str.of_N port in
  returned <-
    try_finally
      (act EvLaunch ;;
       act EvNewContext ;;
       listing <- iterdir ;;
       let entries := discover listing in
       match entries with
       | [] =>
           print MsgNothing ;;
           act EvBrowserClose ;;
           ret true
       | _ :: _ =>
           for_each (render_entry base_url) entries ;;
           act EvBrowserClose ;;
           ret false
       end)
      (act EvStop) ;;
  if returned : bool then ret tt else print MsgDone.

(** [python build.py] *)
Definition main : M unit := module_init ;; render_all.

Definition run : outcome unit * state := main (initial w).

End Program.

(** * The run, read off the oracles *)

(** ** One turn of the loop *)

Section Entry.

Variable w : world.
Variable base_url : string.

Definition entry_url (entry : dirent) : string :=
  base_url +:+ "/" +:+ TEMPLATE +:+ "?id=" +:+ Pathlib.stem (d_name entry).

(** How waiting on a loaded page ends: with an exception that fails the
    entry, or with the capture going ahead, after a warning or not, on
    the document the page is left with. *)
Definition waited (sc : page_script) : exn + bool * document :=
  match poll_until (loaded sc) (later sc) with
  | Ready d _ => inr (false, d)
  | TimedOut d => inr (true, d)
  | Faulted x d _ => if is_timeout x then inr (true, d) else inl x
  end.

(** The document [content] serialises, when the wait left the page on [d]. *)
Definition captured (sc : page_script) (d : document) : document :=
  default d (moved sc).

(** How a turn ends for the file of its entry: written whole; not touched,
    [x] being the exception that ended the try block before the file was
    opened; or left holding a part of the markup, [x] having come once the
    file was open. *)
Inductive verdict :=
  | Written (warned : bool) (html : string)
  | Skipped (x : exn)
  | Cut (x : exn) (part : string).

Definition verdict_of (entry : dirent) : verdict :=
  let sc := site w (entry_url entry) in
  match nav sc with
  | Some x => Skipped x
  | None =>
      match waited sc with
      | inl x => Skipped x
      | inr (warned, d) =>
          match capture sc with
          | Some x => Skipped x
          | None =>
              let html := markup (captured sc d) in
              match write_exn w (d_name entry) with
              | Some (FailsAtOpen x) => Skipped x
              | Some (FailsAfterOpen x reached) => Cut x (Str.take reached html)
              | None => Written warned html
              end
          end
      end
  end.

Definition announce (e : dirent) : event :=
  EvPrint (MsgRendering (d_name e) (WIKI_DIR +:+ "/" +:+ d_name e)).

(** The actions of one turn between the making of page [p] and its closing,
    in order. *)
Definition entry_body (p : nat) (entry : dirent) : list event :=
  let name := Pathlib.stem (d_name entry) in
  let out := WIKI_DIR +:+ "/" +:+ d_name entry in
  let sc := site w (entry_url entry) in
  let failed x := [EvPrint (MsgFailed name x)] in
  EvOn p :: EvGoto p (entry_url entry) ::
  flat_map console_handler (console sc) ++
  match nav sc with
  | Some x => failed x
  | None =>
      EvWait p ::
      match waited sc with
      | inl x => failed x
      | inr (warned, d) =>
          (if warned then [EvPrint (MsgWarnTimeout name)] else []) ++
          EvContent p ::
          match capture sc with
          | Some x => failed x
          | None =>
              EvWrite out ::
              match write_exn w (d_name entry) with
              | Some f => failed (fault_exn f)
              | None =>
                  [EvPrint (MsgSaved out (String.length (markup (captured sc d))))]
              end
          end
      end
  end.

(** The actions of one turn on page [p], in order. *)
Definition entry_log (p : nat) (entry : dirent) : list event :=
  announce entry :: EvNewPage p :: entry_body p entry ++ [EvClose p].

Definition files_after (files : gmap string string) (entry : dirent) : gmap string string :=
  match verdict_of entry with
  | Written _ html => <[d_name entry := html]> files
  | Skipped _ => files
  | Cut _ part => <[d_name entry := part]> files
  end.

(** What the file of an entry holds after its turn, [old] being what it
    held before. *)
Definition settle (v : verdict) (old : option string) : option string :=
  match v with
  | Written _ html => Some html
  | Skipped _ => old
  | Cut _ part => Some part
  end.

End Entry.

(** ** The loop *)

Section Loop.

Variable w : world.

Definition base_url : string := "http://" +:+ HOST +:+ ":" +:+ Str.of_N (free_port w).

(** The turns that take place when the loop starts with [np] pages made:
    the loop ends at the first entry whose page cannot be made. *)
Fixpoint loop_outcome (np : nat) (es : list dirent) : outcome unit :=
  match es with
  | [] => Ok tt
  | _ :: es' =>
      match new_page_exn w np with
      | Some x => Raise x
      | None => loop_outcome (S np) es'
      end
  end.

Fixpoint loop_log (np : nat) (es : list dirent) : list event :=
  match es with
  | [] => []
  | e :: es' =>
      match new_page_exn w np with
      | Some _ => [announce e]
      | None => entry_log w base_url np e ++ loop_log (S np) es'
      end
  end.

Fixpoint loop_files (np : nat) (files : gmap string string) (es : list dirent)
  : gmap string string :=
  match es with
  | [] => files
  | e :: es' =>
      match new_page_exn w np with
      | Some _ => files
      | None => loop_files (S np) (files_after w base_url files e) es'
      end
  end.

Fixpoint loop_next (np : nat) (es : list dirent) : nat :=
  match es with
  | [] => np
  | _ :: es' =>
      match new_page_exn w np with
      | Some _ => np
      | None => loop_next (S np) es'
      end
  end.

Definition prelude : list event :=
  [EvMkdir WIKI_DIR; EvServe (free_port w); EvSleep; EvLaunch; EvNewContext;
   EvIterdir ENTRIES_DIR].

Definition files_before : gmap string string := default ∅ (wiki_before w).

End Loop.

(** ** Vocabulary of the properties *)

(** [needle] occurs in [s] as a run of consecutive code units. *)
Definition occurs (needle s : JS.jsstring) : Prop :=
  exists pre post, s = pre ++ needle ++ post.

(** The directory of the scenario: alpha.html, beta.html and gamma.txt. *)
Definition scenario_dir : list dirent :=
  [Dirent "alpha.html" true; Dirent "beta.html" true; Dirent "gamma.txt" true].

(** Two characters that are equal or are the two cases of one letter of
    A-Z. *)
Definition same_letter (a b : ascii) : Prop :=
  a = b \/
  ((65 <= N_of_ascii a <= 90)%N /\ N_of_ascii b = (N_of_ascii a + 32)%N) \/
  ((65 <= N_of_ascii b <= 90)%N /\ N_of_ascii a = (N_of_ascii b + 32)%N).

(** Two names that are equal when the case of letters is not looked at. *)
Inductive nocase : string -> string -> Prop :=
  | nocase_nil : nocase "" ""
  | nocase_cons a b s t :
      same_letter a b -> nocase s t -> nocase (String a s) (String b t).

(** The same for the code units of a JavaScript string. *)
Definition same_unit (c s : N) : Prop :=
  c = s \/ ((65 <= c <= 90)%N /\ s = (c + 32)%N) \/ ((65 <= s <= 90)%N /\ c = (s + 32)%N).

(** [needle] occurs in [t] when the case of letters is not looked at. *)
Definition occurs_any_case (needle t : JS.jsstring) : Prop :=
  exists pre x post, t = pre ++ x ++ post /\ Forall2 same_unit x needle.

(** The text of an element as the script reads it: its [innerText] when
    that is a non-empty string, else its [textContent] when that is one,
    else the empty string. *)
Definition no_text (o : option JS.jsstring) : Prop := o = None \/ o = Some [].

Definition text_is (el : JS.element) (t : JS.jsstring) : Prop :=
  (JS.innerText el = Some t /\ t <> []) \/
  (no_text (JS.innerText el) /\ JS.textContent el = Some t /\ t <> []) \/
  (no_text (JS.innerText el) /\ no_text (JS.textContent el) /\ t = []).

(** [core] is [t] without the white space at its two ends. *)
Definition is_trim_of (t core : JS.jsstring) : Prop :=
  exists pre post,
    t = pre ++ core ++ post /\
    forallb JS.is_space pre = true /\ forallb JS.is_space post = true /\
    (forall c r, core = c :: r -> JS.is_space c = false) /\
    (forall r c, core = r ++ [c] -> JS.is_space c = false).

(** A directory with names in both cases, a directory named like an entry,
    and names that only look like entries. *)
Definition mixed_dir : list dirent :=
  [Dirent "notes.txt" true; Dirent "b.Html" true; Dirent "Zeta.HTML" true;
   Dirent "c.html" false; Dirent ".html" true; Dirent "alpha.html" true;
   Dirent "page.html.bak" true; Dirent "x.htm" true; Dirent "html" true].

(** An action of the turn of entry [e] while page [p] is open: a call on
    that page, the write of the entry's file, or a line printed about the
    entry. *)
Definition belongs (p : nat) (e : dirent) (ev : event) : bool :=
  let name := Pathlib.stem (d_name e) in
  let out := WIKI_DIR +:+ "/" +:+ d_name e in
  match ev with
  | EvOn q | EvGoto q _ | EvWait q | EvContent q => bool_decide (q = p)
  | EvWrite path => bool_decide (path = out)
  | EvPrint (MsgRendering n path) => bool_decide (n = d_name e /\ path = out)
  | EvPrint (MsgConsole _ _) => true
  | EvPrint (MsgWarnTimeout n) => bool_decide (n = name)
  | EvPrint (MsgSaved path _) => bool_decide (path = out)
  | EvPrint (MsgFailed n _) => bool_decide (n = name)
  | _ => false
  end.

(** A complete turn: the entry is announced, its page is made, everything
    that follows belongs to the turn, and the page is closed at the end. *)
Definition is_turn (p : nat) (e : dirent) (seg : list event) : Prop :=
  exists body,
    seg = announce e :: EvNewPage p :: body ++ [EvClose p] /\
    Forall (fun ev => belongs p e ev = true) body.

(** [segs] are complete turns of the first entries of [es], one after the
    other, on the pages [p], [p + 1], ... *)
Fixpoint turns (p : nat) (es : list dirent) (segs : list (list event)) : Prop :=
  match segs, es with
  | [], _ => True
  | seg :: segs', e :: es' => is_turn p e seg /\ turns (S p) es' segs'
  | _ :: _, [] => False
  end.


(** An action that involves no page. *)
Definition neutral (ev : event) : bool :=
  match ev with
  | EvNewPage _ | EvClose _ | EvOn _ | EvGoto _ _ | EvWait _ | EvContent _ => false
  | _ => true
  end.

(** ** Worlds used as instances *)

Module Scenarios.

Definition with_text (s : string) : option JS.element :=
  Some (JS.Element (Some (JS.lit s)) None).

Definition loading_doc : document :=
  Document (with_text "Loading...") "<div id='projectContent'>Loading...</div>".
Definition fort_doc : document :=
  Document (with_text "Colombo Fort") "<div id='projectContent'>Colombo Fort</div>".

(** Renders after one polling instant, with a warning on the console. *)
Definition quick : page_script :=
  PageScript [ConsoleMessage "warning" "slow network"; ConsoleMessage "log" "ok"]
             None loading_doc [Tick fort_doc] None None.

(** Never clears the sentinel. *)
Definition stuck : page_script :=
  PageScript [] None loading_doc [Tick loading_doc; Tick loading_doc] None None.

(** The navigation itself times out. *)
Definition unreachable : page_script :=
  PageScript [] (Some (PlaywrightTimeoutError "Page.goto: Timeout 20000ms exceeded."))
             blank [] None None.

Definition the_site (url : string) : page_script :=
  if bool_decide (url = "http://127.0.0.1:8000/data.html?id=alpha") then quick
  else if bool_decide (url = "http://127.0.0.1:8000/data.html?id=beta") then stuck
  else unreachable.

Definition the_listing : list dirent :=
  [Dirent "gamma.txt" true; Dirent "delta.html" true; Dirent "beta.html" true;
   Dirent "alpha.html" true].

(** alpha renders, beta stays loading, delta cannot be reached. *)
Definition w_mixed : world :=
  World "/srv/site" (Directory the_listing) None 8000
        (fun _ => None) the_site (fun _ => None).

(** The same, but the browser refuses the second page. *)
Definition browser_gone : exn := OtherError "Error" "Browser has been closed".

Definition w_gone : world :=
  World "/srv/site" (Directory the_listing) None 8000
        (fun n => if n =? 1 then Some browser_gone else None) the_site (fun _ => None).

(** Neither entries/ nor wiki/ is there. *)
Definition w_missing : world :=
  World "/srv/site" Missing None 8000
        (fun _ => None) the_site (fun _ => None).

(** entries/ holds nothing to render: a text file and a directory. *)
Definition w_nothing : world :=
  World "/srv/site" (Directory [Dirent "gamma.txt" true; Dirent "drafts.html" false])
        None 8000 (fun _ => None) the_site (fun _ => None).

End Scenarios.

(** ** Runs that differ in what wiki/ holds beforehand *)

(** The world [w] with [old] for the state of wiki/ before the run. *)
Definition with_wiki (old : option (gmap string string)) (w : world) : world :=
  World (cwd w) (entries_dir w) old (free_port w)
        (new_page_exn w) (site w) (write_exn w).

(** The world in which the script is run once more, right after a run in
    [w], the pages and the disk behaving as before. *)
Definition again (w : world) : world := with_wiki (wiki (run w).2) w.

(** The file [n] of wiki/, if wiki/ and the file are there. *)
Definition file_of (fs : option (gmap string string)) (n : string) : option string :=
  fs ≫= (fun files => files !! n).

Module MoreScenarios.

Import Scenarios.

(** As [w_mixed], over a wiki/ left by an earlier build: an output of an
    entry that is gone, and an output of delta from a time it could be
    reached. *)
Definition w_stale : world :=
  with_wiki (Some {[ "old.html" := "<p>old</p>"; "delta.html" := "<p>delta</p>" ]})
            w_mixed.

(** Times out on the sentinel, and the page is lost before the capture. *)
Definition crashed : page_script :=
  PageScript [] None loading_doc [Tick loading_doc]
             (Some (OtherError "Error" "Page crashed")) None.

(** Times out on the sentinel; the content arrives between the end of the
    wait and the capture. *)
Definition late : page_script :=
  PageScript [] None loading_doc [Tick loading_doc] None (Some fort_doc).

Definition torn_site (url : string) : page_script :=
  if bool_decide (url = "http://127.0.0.1:8000/data.html?id=alpha") then quick
  else if bool_decide (url = "http://127.0.0.1:8000/data.html?id=beta") then crashed
  else late.

Definition disk_full : exn := OtherError "OSError" "No space left on device".

(** alpha renders but the disk is full after eight bytes of its file, the
    page of beta is lost after the timeout, delta renders late. *)
Definition w_torn : world :=
  World "/srv/site" (Directory the_listing) None 8000
        (fun _ => None) torn_site
        (fun name => if bool_decide (name = "alpha.html")
                     then Some (FailsAfterOpen disk_full 8) else None).


End MoreScenarios.

(** * Properties *)

(** ** Entry discovery *)

Section Discovery.

Example discover_demo :
  map (fun f => Pathlib.stem (d_name f))
      (discover [Dirent "gamma.txt" true; Dirent "beta.html" true;
                 Dirent "sub.html" false; Dirent "Alpha.HTML" true;
                 Dirent ".html" true; Dirent "alpha.html" true])
  = ["Alpha"; "alpha"; "beta"].
Proof. vm_compute. reflexivity. Qed.

Lemma take_drop (n : nat) (s : string) : Str.take n s +:+ Str.drop n s = s.
Proof.
  revert s; induction n as [|n IH]; intros [|a t]; simpl; try reflexivity.
  unfold String.app in *; simpl. now rewrite IH.
Qed.

Lemma stem_suffix (name : string) :
  Pathlib.stem name +:+ Pathlib.suffix name = name.
Proof.
  unfold Pathlib.stem, Pathlib.suffix.
  destruct (Pathlib.split_at name) as [i|].
  - apply take_drop.
  - unfold String.app. induction name; simpl; congruence.
Qed.

Lemma is_entry_iff (f : dirent) :
  is_entry f = true <->
  d_is_file f = true /\ Str.lower (Pathlib.suffix (d_name f)) = ".html".
Proof.
  unfold is_entry. rewrite andb_true_iff, bool_decide_eq_true. tauto.
Qed.

Global Instance path_le_trans : Transitive path_le.
Proof. intros a b c. unfold path_le. apply transitivity. Qed.

Global Instance path_le_total : Total path_le.
Proof. intros a b. unfold path_le. apply total, _. Qed.

Lemma discover_perm (listing : list dirent) :
  discover listing ≡ₚ filter (fun f => is_entry f = true) listing.
Proof. apply merge_sort_Permutation. Qed.

Lemma discover_elem (listing : list dirent) (f : dirent) :
  f ∈ discover listing <-> f ∈ listing /\ is_entry f = true.
Proof. rewrite discover_perm, list_elem_of_filter. tauto. Qed.

Lemma discover_sorted (listing : list dirent) :
  StronglySorted path_le (discover listing).
Proof. apply StronglySorted_merge_sort; apply _. Qed.

Lemma lower_length (s : string) : String.length (Str.lower s) = String.length s.
Proof. induction s as [|a s IH]; simpl; congruence. Qed.

Lemma take_length (n : nat) (s : string) :
  n <= String.length s -> String.length (Str.take n s) = n.
Proof.
  revert s. induction n as [|n IH]; intros [|a s] Hn; simpl in *; try lia.
  rewrite IH; lia.
Qed.

Lemma app_length (s t : string) :
  String.length (s +:+ t) = String.length s + String.length t.
Proof. unfold String.app. induction s as [|a s IH]; simpl; congruence. Qed.

Lemma take_app (s t : string) : Str.take (String.length s) (s +:+ t) = s.
Proof. unfold String.app. induction s as [|a s IH]; simpl; [now destruct t|congruence]. Qed.

Lemma drop_app (s t : string) : Str.drop (String.length s) (s +:+ t) = t.
Proof. unfold String.app. induction s as [|a s IH]; simpl; [now destruct t|exact IH]. Qed.

Lemma app_inv_same_tail (s1 s2 t1 t2 : string) :
  s1 +:+ t1 = s2 +:+ t2 -> String.length t1 = String.length t2 -> s1 = s2.
Proof.
  unfold String.app. revert s2. induction s1 as [|a s1 IH]; intros [|b s2] H Hl; simpl in *.
  - reflexivity.
  - exfalso. rewrite H in Hl. simpl in Hl.
    pose proof (app_length s2 t2) as Ha. unfold String.app in Ha. lia.
  - exfalso. rewrite <- H in Hl. simpl in Hl.
    pose proof (app_length s1 t1) as Ha. unfold String.app in Ha. lia.
  - injection H as -> H. f_equal. now apply IH.
Qed.

Lemma rfind_app (c : ascii) (s t : string) :
  Str.rfind c t = None -> Str.rfind c (s +:+ String c t) = Some (String.length s).
Proof.
  intros Ht. unfold String.app. induction s as [|a s IH]; simpl.
  - now rewrite Ht, Ascii.eqb_refl.
  - now rewrite IH.
Qed.

Lemma upper_range (n : N) :
  (((65 <=? n) && (n <=? 90))%N = true <-> (65 <= n <= 90)%N) /\
  (((65 <=? n) && (n <=? 90))%N = false <-> (n < 65 \/ 90 < n)%N).
Proof.
  destruct (65 <=? n)%N eqn:E1; destruct (n <=? 90)%N eqn:E2; simpl;
    try apply N.leb_le in E1; try apply N.leb_le in E2;
    try apply N.leb_gt in E1; try apply N.leb_gt in E2;
    (split; split; intros H; try reflexivity; try discriminate; lia).
Qed.

(** Lowering makes equal exactly the characters that are the same letter. *)
Lemma lower_ascii_same (a b : ascii) :
  Str.lower_ascii a = Str.lower_ascii b <-> same_letter a b.
Proof.
  unfold Str.lower_ascii, same_letter.
  pose proof (N_ascii_bounded a) as Ba. pose proof (N_ascii_bounded b) as Bb.
  assert (Hinj : N_of_ascii a = N_of_ascii b -> a = b).
  { intros H. rewrite <- (ascii_N_embedding a), <- (ascii_N_embedding b). now rewrite H. }
  destruct ((65 <=? N_of_ascii a) && (N_of_ascii a <=? 90))%N eqn:Ea;
    destruct ((65 <=? N_of_ascii b) && (N_of_ascii b <=? 90))%N eqn:Eb;
    apply upper_range in Ea, Eb.
  - split.
    + intros H. left. apply Hinj. apply (f_equal N_of_ascii) in H.
      rewrite !N_ascii_embedding in H by lia. lia.
    + intros [-> | [[_ H] | [_ H]]]; [reflexivity | lia | lia].
  - split.
    + intros H. right. left. split; [lia|]. rewrite <- H.
      rewrite N_ascii_embedding by lia. reflexivity.
    + intros [-> | [[_ H] | [H1 H]]]; [lia | | lia].
      rewrite <- H. apply ascii_N_embedding.
  - split.
    + intros H. right. right. split; [lia|]. rewrite H.
      rewrite N_ascii_embedding by lia. reflexivity.
    + intros [-> | [[H1 H] | [_ H]]]; [lia | lia |].
      rewrite <- H. symmetry. apply ascii_N_embedding.
  - split.
    + intros ->. now left.
    + intros [-> | [[H1 H] | [H1 H]]]; [reflexivity | lia | lia].
Qed.

Lemma nocase_lower (s t : string) :
  nocase s t <-> Str.lower s = Str.lower t.
Proof.
  split.
  - induction 1 as [|a b s t Hab _ IH]; simpl; [reflexivity|].
    apply lower_ascii_same in Hab. congruence.
  - revert t. induction s as [|a s IH]; intros [|b t] H; simpl in H;
      try discriminate; [constructor|].
    injection H as Hab H. constructor; [now apply lower_ascii_same | now apply IH].
Qed.

Lemma nocase_no_dot (t u : string) :
  nocase t u -> Str.rfind "." u = None -> Str.rfind "." t = None.
Proof.
  induction 1 as [|a b s t Hab _ IH]; simpl; [reflexivity|].
  destruct (Str.rfind "." t); [discriminate|].
  destruct (Ascii.eqb b ".") eqn:Eb; [discriminate|]. intros _.
  rewrite IH by reflexivity.
  destruct (Ascii.eqb a ".") eqn:Ea; [|reflexivity].
  apply Ascii.eqb_eq in Ea. subst a. apply Ascii.eqb_neq in Eb.
  destruct Hab as [<- | [[H1 H] | [H1 H]]]; [contradiction | |]; simpl in *; lia.
Qed.

(** A name made of a non-empty stem and a suffix that is ".html" up to
    case is split by pathlib between the two. *)
Lemma split_stem_html (stem ext : string) :
  stem <> "" -> nocase ext ".html" ->
  Pathlib.split_at (stem +:+ ext) = Some (String.length stem).
Proof.
  intros Hne Hext.
  assert (Hlen : String.length ext = 5).
  { apply nocase_lower in Hext. rewrite <- lower_length, Hext. reflexivity. }
  inversion Hext as [|a b t u Hab Ht]; subst.
  assert (a = "."%char) as ->.
  { destruct Hab as [-> | [[H1 H] | [H1 H]]]; [reflexivity | |]; simpl in *; lia. }
  unfold Pathlib.split_at.
  rewrite (rfind_app "." stem t) by (apply (nocase_no_dot t "html" Ht); reflexivity).
  rewrite app_length, Hlen.
  destruct stem as [|c stem]; [congruence|]. simpl String.length.
  replace (0 <? S (String.length stem)) with true by (symmetry; apply Nat.ltb_lt; lia).
  replace (S (String.length stem) <? S (String.length stem) + 5 - 1) with true
    by (symmetry; apply Nat.ltb_lt; lia).
  reflexivity.
Qed.

Lemma split_at_bounds (name : string) (i : nat) :
  Pathlib.split_at name = Some i -> 0 < i < String.length name - 1.
Proof.
  unfold Pathlib.split_at. destruct (Str.rfind "." name) as [j|]; [|discriminate].
  destruct ((0 <? j) && (j <? String.length name - 1)) eqn:Hb; [|discriminate].
  intros [= <-]. apply andb_true_iff in Hb as [H0 H1].
  apply Nat.ltb_lt in H0, H1. lia.
Qed.

(** The filter of discovery, in the words of the contract. *)
Lemma is_entry_spec (f : dirent) :
  is_entry f = true <->
  d_is_file f = true /\
  exists stem ext, d_name f = stem +:+ ext /\ stem <> "" /\ nocase ext ".html".
Proof.
  rewrite is_entry_iff. split.
  - intros [Hf Hs]. split; [exact Hf|].
    exists (Pathlib.stem (d_name f)), (Pathlib.suffix (d_name f)).
    split; [symmetry; apply stem_suffix|]. split.
    + unfold Pathlib.suffix, Pathlib.stem in *.
      destruct (Pathlib.split_at (d_name f)) as [i|] eqn:Hi; [|discriminate].
      apply split_at_bounds in Hi. intros Hempty.
      assert (Hl : String.length (Str.take i (d_name f)) = i) by (apply take_length; lia).
      rewrite Hempty in Hl. simpl in Hl. lia.
    + apply nocase_lower. rewrite Hs. reflexivity.
  - intros [Hf [stem [ext [Hn [Hne Hext]]]]]. split; [exact Hf|].
    unfold Pathlib.suffix. rewrite Hn, (split_stem_html stem ext Hne Hext), drop_app.
    apply nocase_lower in Hext. rewrite Hext. reflexivity.
Qed.

(** The identifier of an entry is what comes before the suffix. *)
Lemma entry_stem_spec (f : dirent) (stem ext : string) :
  is_entry f = true -> d_name f = stem +:+ ext -> nocase ext ".html" ->
  Pathlib.stem (d_name f) = stem.
Proof.
  intros Hf Hn Hext. apply is_entry_iff in Hf as [_ Hs].
  apply (app_inv_same_tail _ _ (Pathlib.suffix (d_name f)) ext).
  - rewrite stem_suffix. exact Hn.
  - apply nocase_lower in Hext.
    rewrite <- (lower_length (Pathlib.suffix (d_name f))), <- (lower_length ext).
    now rewrite Hs, Hext.
Qed.

(** C5. Discovery keeps exactly the regular files whose name is a
    non-empty identifier followed by a suffix that is ".html" when the case
    of letters is not looked at, each as often as the directory lists it,
    in the order of their names; the identifier of an entry is its name
    without that suffix.  In whatever order the directory yields
    alpha.html, beta.html and gamma.txt, the entries are alpha and beta, in
    this order; and of a directory with names in both cases, Zeta.HTML,
    alpha.html and b.Html are the entries, in this order. *)
Theorem discover_spec (listing : list dirent) :
  (forall f, f ∈ discover listing <->
             f ∈ listing /\ d_is_file f = true /\
             exists stem ext,
               d_name f = stem +:+ ext /\ stem <> "" /\ nocase ext ".html") /\
  (forall f stem ext,
      f ∈ discover listing -> d_name f = stem +:+ ext -> nocase ext ".html" ->
      Pathlib.stem (d_name f) = stem) /\
  (forall f, f ∈ discover listing <->
             f ∈ listing /\ d_is_file f = true /\
             Str.lower (Pathlib.suffix (d_name f)) = ".html") /\
  discover listing ≡ₚ
    filter (fun f => d_is_file f = true /\
                     Str.lower (Pathlib.suffix (d_name f)) = ".html") listing /\
  StronglySorted (fun a b => (d_name a ≤ d_name b)%string) (discover listing) /\
  (forall f, f ∈ discover listing ->
             d_name f = Pathlib.stem (d_name f) +:+ Pathlib.suffix (d_name f)) /\
  Forall (fun l => discover l = [Dirent "alpha.html" true; Dirent "beta.html" true] /\
                   map (fun f => Pathlib.stem (d_name f)) (discover l) = ["alpha"; "beta"])
         (permutations scenario_dir) /\
  discover mixed_dir
    = [Dirent "Zeta.HTML" true; Dirent "alpha.html" true; Dirent "b.Html" true] /\
  map (fun f => Pathlib.stem (d_name f)) (discover mixed_dir) = ["Zeta"; "alpha"; "b"].
Proof.
  split; [|split; [|split; [|split; [|split; [|split; [|split; [|split]]]]]]].
  - intros f. rewrite discover_elem, is_entry_spec. tauto.
  - intros f stem ext Hf. apply discover_elem in Hf as [_ Hf].
    now apply entry_stem_spec.
  - intros f. rewrite discover_elem, is_entry_iff. tauto.
  - rewrite discover_perm.
    erewrite list_filter_iff; [reflexivity|].
    intros f. apply is_entry_iff.
  - apply discover_sorted.
  - intros f _. symmetry. apply stem_suffix.
  - vm_compute. repeat constructor.
  - vm_compute. reflexivity.
  - vm_compute. reflexivity.
Qed.

End Discovery.

(** ** The readiness predicate *)

Section Readiness.

Import JS.

Example ready_demo :
  ready (Some (Element (Some (lit "  Colombo Fort  ")) None)) = true /\
  ready (Some (Element (Some (lit " LOADING... please wait")) None)) = false /\
  ready (Some (Element (Some []) (Some (lit "x")))) = true /\
  ready (Some (Element None (Some (0xA0 :: 0x2028 :: lit " ")%N))) = false /\
  ready None = false.
Proof. vm_compute. repeat split. Qed.

Lemma startsWith_iff (needle s : jsstring) :
  startsWith needle s = true <-> exists post, s = needle ++ post.
Proof.
  revert s; induction needle as [|a needle IH]; intros s; simpl.
  - split; eauto.
  - destruct s as [|b s].
    + split; [discriminate | intros [post H]; discriminate].
    + rewrite andb_true_iff, N.eqb_eq, IH. split.
      * intros [-> [post ->]]. eauto.
      * intros [post H]. injection H as -> ->. eauto.
Qed.

Lemma includes_iff (needle s : jsstring) :
  includes needle s = true <-> occurs needle s.
Proof.
  unfold occurs. induction s as [|b s IH]; simpl.
  - rewrite orb_false_r, startsWith_iff. split.
    + intros [post H]. exists [], post. exact H.
    + intros [pre [post H]]. destruct pre as [|c pre]; [eauto | discriminate].
  - rewrite orb_true_iff, startsWith_iff, IH. split.
    + intros [[post H] | [pre [post H]]].
      * exists [], post. exact H.
      * exists (b :: pre), post. simpl. now rewrite H.
    + intros [[|c pre] [post H]].
      * left. eauto.
      * right. injection H as -> ->. eauto.
Qed.

Lemma trimStart_app (p x : jsstring) (c : N) :
  is_space c = false -> trimStart (p ++ c :: x) = trimStart p ++ c :: x.
Proof.
  intros Hc. induction p as [|a p IH]; simpl.
  - now rewrite Hc.
  - destruct (is_space a); [exact IH | reflexivity].
Qed.

Lemma trimStart_split (s : jsstring) :
  exists pre, s = pre ++ trimStart s /\ forallb is_space pre = true.
Proof.
  induction s as [|a s [pre [H1 H2]]]; simpl.
  - exists []. split; reflexivity.
  - destruct (is_space a) eqn:Ha.
    + exists (a :: pre). simpl. rewrite Ha, H2. split; [congruence | reflexivity].
    + exists []. split; reflexivity.
Qed.

Lemma trimEnd_split (s : jsstring) :
  exists post, s = trimEnd s ++ post /\ forallb is_space post = true.
Proof.
  destruct (trimStart_split (rev s)) as [pre [H1 H2]].
  exists (rev pre). split.
  - unfold trimEnd. rewrite <- rev_app_distr, <- H1. now rewrite rev_involutive.
  - rewrite forallb_forall in *. intros c Hc. apply H2. now apply in_rev.
Qed.

(** What [trim] removes is white space at both ends. *)
Lemma trim_split (s : jsstring) :
  exists pre post, s = pre ++ trim s ++ post /\
                   forallb is_space pre = true /\ forallb is_space post = true.
Proof.
  destruct (trimStart_split s) as [pre [H1 H2]].
  destruct (trimEnd_split (trimStart s)) as [post [H3 H4]].
  exists pre, post. unfold trim. rewrite <- H3. auto.
Qed.

(** A run without white space survives [trim] where it is. *)
Lemma trim_around (p x q : jsstring) :
  x <> [] ->
  Forall (fun c => is_space c = false) x ->
  trim (p ++ x ++ q) = trimStart p ++ x ++ trimEnd q.
Proof.
  intros Hx Hall. unfold trim.
  destruct x as [|c x]; [congruence|].
  pose proof (Forall_inv Hall) as Hc. simpl in Hc.
  simpl. rewrite trimStart_app by exact Hc.
  destruct (exists_last (l := c :: x)) as [y [d Hy]]; [discriminate|].
  assert (Hd : is_space d = false).
  { rewrite Hy in Hall. apply Forall_app in Hall as [_ Hd]. now inversion Hd. }
  change (c :: x ++ q) with ((c :: x) ++ q).
  change (c :: x ++ trimEnd q) with ((c :: x) ++ trimEnd q).
  rewrite Hy. unfold trimEnd.
  rewrite !rev_app_distr. simpl. rewrite <- !app_assoc. simpl.
  rewrite trimStart_app by exact Hd.
  rewrite rev_app_distr. simpl. rewrite !rev_app_distr, !rev_involutive.
  rewrite <- !app_assoc. reflexivity.
Qed.

Lemma lower_unit_space (c : N) : is_space c = true -> lower_unit c = c.
Proof.
  intros H. unfold lower_unit.
  destruct ((65 <=? c) && (c <=? 90))%N eqn:E; [|reflexivity].
  exfalso. apply andb_true_iff in E as [E1 E2].
  apply N.leb_le in E1, E2. unfold is_space in H.
  repeat (apply orb_true_iff in H as [H|H]);
    try (apply N.eqb_eq in H; lia).
  apply andb_true_iff in H as [H1 H2]. apply N.leb_le in H1. lia.
Qed.

Lemma sentinel_no_space (x : jsstring) :
  toLowerCase x = SENTINEL -> x <> [] /\ Forall (fun c => is_space c = false) x.
Proof.
  intros H. split.
  - intros ->. discriminate.
  - apply Forall_forall. intros c Hc.
    destruct (is_space c) eqn:E; [|reflexivity]. exfalso.
    assert (Hin : In (lower_unit c) SENTINEL).
    { rewrite <- H. unfold toLowerCase. apply in_map. now apply list_elem_of_In. }
    rewrite (lower_unit_space c E) in Hin.
    assert (Hs : forallb (fun c => negb (is_space c)) SENTINEL = true) by reflexivity.
    rewrite forallb_forall in Hs. apply Hs in Hin. rewrite E in Hin. discriminate.
Qed.

(** The sentinel holds no white space, so it occurs in the trimmed text
    exactly when it occurs in the text. *)
Lemma sentinel_trim (s : jsstring) :
  occurs SENTINEL (toLowerCase (trim s)) <-> occurs SENTINEL (toLowerCase s).
Proof.
  unfold occurs, toLowerCase. split.
  - intros [a [b H]].
    destruct (trim_split s) as [pre [post [Hs _]]].
    exists (map lower_unit pre ++ a), (b ++ map lower_unit post).
    rewrite Hs at 1. rewrite !map_app, H, <- !app_assoc. reflexivity.
  - intros [a [b H]].
    apply map_eq_app in H as [p [r [-> [Hp Hr]]]].
    apply map_eq_app in Hr as [x [q [-> [Hx Hq]]]].
    destruct (sentinel_no_space x Hx) as [Hne Hall].
    rewrite (trim_around p x q Hne Hall).
    exists (map lower_unit (trimStart p)), (map lower_unit (trimEnd q)).
    rewrite !map_app, Hx. reflexivity.
Qed.

Lemma trimStart_spaces (pre t : jsstring) :
  forallb is_space pre = true -> trimStart (pre ++ t) = trimStart t.
Proof.
  induction pre as [|a pre IH]; simpl; [reflexivity|].
  intros H. apply andb_true_iff in H as [Ha Hpre]. rewrite Ha. now apply IH.
Qed.

Lemma trimEnd_spaces (t post : jsstring) :
  forallb is_space post = true -> trimEnd (t ++ post) = trimEnd t.
Proof.
  intros H. unfold trimEnd. rewrite rev_app_distr, trimStart_spaces; [reflexivity|].
  rewrite forallb_forall in *. intros c Hc. apply H. now apply in_rev.
Qed.

Lemma trimStart_head (s x : jsstring) (c : N) :
  trimStart s = c :: x -> is_space c = false.
Proof.
  induction s as [|a s IH]; simpl; [discriminate|].
  destruct (is_space a) eqn:Ha; [exact IH|]. intros [= -> _]. exact Ha.
Qed.

Lemma trim_spaces_around (pre s post : jsstring) :
  forallb is_space pre = true -> forallb is_space post = true ->
  trim (pre ++ s ++ post) = trim s.
Proof.
  intros Hpre Hpost. unfold trim. rewrite (trimStart_spaces pre _ Hpre).
  destruct (trimStart_split s) as [p [Hs Hp]].
  destruct (trimStart s) as [|c x] eqn:Ets.
  - rewrite app_nil_r in Hs. subst p.
    rewrite (trimStart_spaces s post Hp).
    rewrite <- (app_nil_r post), (trimStart_spaces post [] Hpost). reflexivity.
  - pose proof (trimStart_head s x c Ets) as Hc.
    rewrite Hs at 1. rewrite <- app_assoc, (trimStart_spaces p _ Hp).
    simpl. rewrite Hc.
    change (c :: x ++ post) with ((c :: x) ++ post).
    now apply trimEnd_spaces.
Qed.

(** The predicate, through the functions it calls. *)
Lemma ready_by_parts (pc : option element) :
  (ready pc = true <->
     exists el, pc = Some el /\ trim (raw_text el) <> [] /\
                ~ occurs SENTINEL (toLowerCase (raw_text el))) /\
  (ready pc = false <->
     pc = None \/
     exists el, pc = Some el /\
                (trim (raw_text el) = [] \/
                 occurs SENTINEL (toLowerCase (raw_text el)))) /\
  (forall s, occurs SENTINEL (toLowerCase (trim s)) <->
             occurs SENTINEL (toLowerCase s)).
Proof.
  assert (Htrue : ready pc = true <->
     exists el, pc = Some el /\ trim (raw_text el) <> [] /\
                ~ occurs SENTINEL (toLowerCase (raw_text el))).
  { destruct pc as [el|]; simpl.
    - split.
      + intros H. exists el.
        destruct (trim (raw_text el)) as [|c t] eqn:Et; [discriminate|].
        destruct (includes SENTINEL (toLowerCase (c :: t))) eqn:Ei; [discriminate|].
        repeat split; [discriminate|].
        intros Ho. apply sentinel_trim in Ho. rewrite Et in Ho.
        apply includes_iff in Ho. congruence.
      + intros [el' [Heq [Hne Hno]]]. injection Heq as <-.
        destruct (trim (raw_text el)) as [|c t] eqn:Et; [congruence|].
        destruct (includes SENTINEL (toLowerCase (c :: t))) eqn:Ei; [|reflexivity].
        exfalso. apply Hno, sentinel_trim. rewrite Et. now apply includes_iff.
    - split; [discriminate|]. intros [el [Heq _]]. discriminate. }
  split; [exact Htrue|split; [|exact sentinel_trim]].
  rewrite <- not_true_iff_false, Htrue. split.
  - intros Hn. destruct pc as [el|]; [right|left; reflexivity].
    exists el. split; [reflexivity|].
    destruct (trim (raw_text el)) as [|c t] eqn:Et; [left; reflexivity|right].
    destruct (includes SENTINEL (toLowerCase (raw_text el))) eqn:Ei.
    + now apply includes_iff.
    + exfalso. apply Hn. exists el. rewrite Et. repeat split; [discriminate|].
      rewrite <- includes_iff, Ei. discriminate.
  - intros [-> | [el [-> [He | Ho]]]] [el' [Heq [Hne Hno]]];
      [discriminate | injection Heq as <- ..]; contradiction.
Qed.

Lemma text_is_raw (el : element) (t : jsstring) :
  text_is el t <-> t = raw_text el.
Proof.
  unfold text_is, no_text, raw_text, or_else.
  destruct el as [[[|c s]|] [[|c' s']|]]; simpl; split;
    try (intros [[H1 H2] | [[[H1|H1] [H2 H3]] | [[H1|H1] [[H2|H2] H3]]]];
         congruence);
    intros ->;
    first [ left; split; [reflexivity | discriminate]
          | right; left; split; [auto|]; split; [reflexivity | discriminate]
          | right; right; auto ].
Qed.

Lemma trimEnd_last (s r : jsstring) (c : N) :
  trimEnd s = r ++ [c] -> is_space c = false.
Proof.
  unfold trimEnd. intros H. apply (f_equal (@rev N)) in H.
  rewrite rev_involutive, rev_app_distr in H. simpl in H.
  now apply trimStart_head in H.
Qed.

Lemma trim_is_trim (t : jsstring) : is_trim_of t (trim t).
Proof.
  destruct (trimStart_split t) as [pre [H1 H2]].
  destruct (trimEnd_split (trimStart t)) as [post [H3 H4]].
  exists pre, post. unfold trim. rewrite <- H3.
  split; [exact H1|]. split; [exact H2|]. split; [exact H4|]. split.
  - intros c r Hc. rewrite Hc in H3. simpl in H3. now apply trimStart_head in H3.
  - intros r c Hc. now apply trimEnd_last in Hc.
Qed.

Lemma is_trim_unique (t core : jsstring) : is_trim_of t core -> core = trim t.
Proof.
  intros [pre [post [-> [Hpre [Hpost [Hhead Hlast]]]]]].
  rewrite (trim_spaces_around pre core post Hpre Hpost).
  destruct core as [|c r]; [reflexivity|].
  unfold trim. simpl. rewrite (Hhead c r eq_refl).
  destruct (exists_last (l := c :: r)) as [y [d Hy]]; [discriminate|].
  unfold trimEnd. rewrite Hy, rev_app_distr. simpl.
  rewrite (Hlast y d Hy). simpl. rewrite rev_involutive. reflexivity.
Qed.

Lemma lower_unit_same (c s : N) : lower_unit c = lower_unit s <-> same_unit c s.
Proof.
  unfold lower_unit, same_unit.
  destruct ((65 <=? c) && (c <=? 90))%N eqn:Ec;
    destruct ((65 <=? s) && (s <=? 90))%N eqn:Es;
    apply upper_range in Ec, Es; lia.
Qed.

Lemma same_units_lower (x y : jsstring) :
  Forall2 same_unit x y <-> toLowerCase x = toLowerCase y.
Proof.
  unfold toLowerCase. split.
  - induction 1 as [|c s x y Hcs _ IH]; simpl; [reflexivity|].
    apply lower_unit_same in Hcs. congruence.
  - revert y. induction x as [|c x IH]; intros [|s y] H; simpl in H;
      try discriminate; [constructor|].
    injection H as Hcs H. constructor; [now apply lower_unit_same | now apply IH].
Qed.

(** Looking for the sentinel in the lowercased text is looking for it in
    the text in whatever case. *)
Lemma occurs_any_case_lower (t : jsstring) :
  occurs_any_case SENTINEL t <-> occurs SENTINEL (toLowerCase t).
Proof.
  unfold occurs_any_case, occurs. split.
  - intros [pre [x [post [-> Hx]]]]. apply same_units_lower in Hx.
    exists (toLowerCase pre), (toLowerCase post).
    unfold toLowerCase in *. rewrite !map_app, Hx. reflexivity.
  - intros [a [b H]]. unfold toLowerCase in H.
    apply map_eq_app in H as [pre [r [-> [Hp Hr]]]].
    apply map_eq_app in Hr as [x [post [-> [Hx Hq]]]].
    exists pre, x, post. split; [reflexivity|].
    apply same_units_lower. exact Hx.
Qed.

(** C2. The readiness predicate answers true exactly when the container
    element exists, its text (its innerText, or its textContent when that
    is empty or undefined) has something left once the white space at its
    ends is removed, and the sentinel does not occur in the text in
    whatever case of letters; it answers false when the element is absent,
    nothing is left of the text, or the sentinel occurs anywhere in it.  So
    it is on texts in lower, upper and mixed case, with ordinary and
    no-break spaces, and on elements with either source of text. *)
Theorem ready_spec (pc : option element) :
  (ready pc = true <->
     exists el t core,
       pc = Some el /\ text_is el t /\ is_trim_of t core /\ core <> [] /\
       ~ occurs_any_case (lit "loading...") t) /\
  (ready pc = false <->
     pc = None \/
     exists el t core,
       pc = Some el /\ text_is el t /\ is_trim_of t core /\
       (core = [] \/ occurs_any_case (lit "loading...") t)) /\
  ready (Some (Element (Some (lit "  Colombo Fort  ")) None)) = true /\
  ready (Some (Element (Some [67; 111; 108; 111; 109; 98; 111]%N) None)) = true /\
  ready (Some (Element (Some (lit "loading...")) None)) = false /\
  ready (Some (Element (Some [76; 79; 65; 68; 73; 78; 71; 46; 46; 46]%N) None)) = false /\
  ready (Some (Element (Some (lit "Still LoAdInG... 50%")) None)) = false /\
  ready (Some (Element (Some (lit "loading..")) None)) = true /\
  ready (Some (Element (Some (lit " ")) (Some (lit "Kandy")))) = false /\
  ready (Some (Element (Some [0xA0; 0x9; 0x2028; 0xFEFF]%N) None)) = false /\
  ready (Some (Element (Some []) (Some (lit "Kandy")))) = true /\
  ready (Some (Element None (Some (lit "Kandy")))) = true /\
  ready (Some (Element None (Some (lit "LOADING...")))) = false /\
  ready (Some (Element (Some []) (Some []))) = false /\
  ready (Some (Element None None)) = false /\
  ready None = false.
Proof.
  destruct (ready_by_parts pc) as [Htrue [Hfalse _]].
  split; [|split; [|vm_compute; repeat split]].
  - rewrite Htrue. split.
    + intros [el [Hpc [Hne Hno]]]. exists el, (raw_text el), (trim (raw_text el)).
      split; [exact Hpc|]. split; [now apply text_is_raw|].
      split; [apply trim_is_trim|]. split; [exact Hne|].
      intros Ho. apply Hno. now apply occurs_any_case_lower.
    + intros [el [t [core [Hpc [Ht [Hc [Hne Hno]]]]]]].
      apply text_is_raw in Ht. subst t. apply is_trim_unique in Hc. subst core.
      exists el. split; [exact Hpc|]. split; [exact Hne|].
      intros Ho. apply Hno. now apply occurs_any_case_lower.
  - rewrite Hfalse. split.
    + intros [Hpc | [el [Hpc Hcase]]]; [now left | right].
      exists el, (raw_text el), (trim (raw_text el)).
      split; [exact Hpc|]. split; [now apply text_is_raw|].
      split; [apply trim_is_trim|].
      destruct Hcase as [He | Ho]; [now left | right].
      now apply occurs_any_case_lower.
    + intros [Hpc | [el [t [core [Hpc [Ht [Hc Hcase]]]]]]]; [now left | right].
      apply text_is_raw in Ht. subst t. apply is_trim_unique in Hc. subst core.
      exists el. split; [exact Hpc|].
      destruct Hcase as [He | Ho]; [now left | right].
      now apply occurs_any_case_lower.
Qed.

End Readiness.

(** ** One turn of the loop *)

Section Turn.

Variable w : world.
Variable base_url : string.

Ltac step_maps :=
  simpl;
  repeat (first
    [ rewrite lookup_insert_eq | rewrite lookup_alter_eq
    | rewrite insert_insert_eq | rewrite insert_alter_eq
    | rewrite delete_insert_eq | rewrite delete_alter_eq
    | rewrite <- app_assoc ]; simpl).

Lemma render_entry_eq (st : state) (files : gmap string string) (entry : dirent) :
  wiki st = Some files ->
  new_page_exn w (next_page st) = None ->
  render_entry w base_url entry st =
    (Ok tt, State (Some (files_after w base_url files entry))
                  (delete (next_page st) (pages st))
                  (S (next_page st))
                  (log st ++ entry_log w base_url (next_page st) entry)).
Proof.
  intros Hw Hn. destruct st as [wk pg np lg]. simpl in *. subst wk.
  unfold render_entry, files_after, verdict_of, entry_log, entry_body, announce,
    waited, captured, fault_exn, entry_url.
  unfold bind, try_finally, try_except, print, act, new_page, page_on, goto,
    wait_for_function, content, write_text, stat_size, close, emit, set_pages,
    set_wiki, any_exception; simpl.
  remember (site w _) as sc eqn:Hsc. clear Hsc.
  rewrite Hn; simpl. step_maps.
  destruct (nav sc) as [x|]; simpl; step_maps; [reflexivity|].
  destruct (poll_until (loaded sc) (later sc)) as [d rest|d|x d rest]; simpl; step_maps.
  - destruct (capture sc) as [x|]; simpl; step_maps; [reflexivity|].
    destruct (write_exn w (d_name entry)) as [[x|x k]|]; simpl; step_maps; reflexivity.
  - destruct (capture sc) as [x|]; simpl; step_maps; [reflexivity|].
    destruct (write_exn w (d_name entry)) as [[x|x k]|]; simpl; step_maps; reflexivity.
  - destruct (is_timeout x); simpl; step_maps; [|reflexivity].
    destruct (capture sc) as [x'|]; simpl; step_maps; [reflexivity|].
    destruct (write_exn w (d_name entry)) as [[x'|x' k]|]; simpl; step_maps; reflexivity.
Qed.

End Turn.

(** ** The loop and the whole run *)

Section WholeRun.

Variable w : world.

Abbreviation turn := (render_entry w (base_url w)).

Lemma render_entry_abort (st : state) (entry : dirent) (x : exn) :
  new_page_exn w (next_page st) = Some x ->
  turn entry st = (Raise x, emit (announce entry) st).
Proof.
  intros Hn. unfold render_entry, bind, print, act, new_page; simpl.
  rewrite Hn. reflexivity.
Qed.

Lemma for_each_eq (es : list dirent) (st : state) (files : gmap string string) :
  wiki st = Some files -> pages st = ∅ ->
  for_each turn es st =
    (loop_outcome w (next_page st) es,
     State (Some (loop_files w (next_page st) files es)) ∅
           (loop_next w (next_page st) es)
           (log st ++ loop_log w (next_page st) es)).
Proof.
  revert st files. induction es as [|e es IH]; intros st files Hw Hp; simpl.
  - unfold ret. rewrite app_nil_r. destruct st; simpl in *; congruence.
  - unfold bind. destruct (new_page_exn w (next_page st)) as [x|] eqn:Hn.
    + rewrite (render_entry_abort st e x Hn). unfold emit. now rewrite Hw, Hp.
    + rewrite (render_entry_eq w (base_url w) st files e Hw Hn).
      rewrite IH with (files := files_after w (base_url w) files e); simpl.
      * rewrite <- app_assoc. reflexivity.
      * reflexivity.
      * rewrite Hp. apply delete_empty.
Qed.

(** The run over a directory that yields no entry. *)
Lemma run_nothing (listing : list dirent) :
  entries_dir w = Directory listing -> discover listing = [] ->
  run w = (Ok tt, State (Some (files_before w)) ∅ 0
                        (prelude w ++ [EvPrint MsgNothing; EvBrowserClose; EvStop])).
Proof.
  intros Hd He.
  unfold run, main, module_init, render_all, iterdir, mkdir_wiki, bind,
    try_finally, act, print, sys_exit, ret, emit, set_wiki, initial; simpl.
  rewrite Hd; simpl. rewrite He; simpl. reflexivity.
Qed.

(** The run over a directory with entries. *)
Lemma run_entries (listing : list dirent) :
  entries_dir w = Directory listing -> discover listing <> [] ->
  run w =
    (loop_outcome w 0 (discover listing),
     State (Some (loop_files w 0 (files_before w) (discover listing))) ∅
           (loop_next w 0 (discover listing))
           (prelude w ++ loop_log w 0 (discover listing) ++
            match loop_outcome w 0 (discover listing) with
            | Ok _ => [EvBrowserClose; EvStop; EvPrint MsgDone]
            | _ => [EvStop]
            end)).
Proof.
  intros Hd He.
  unfold run, main, module_init, render_all, iterdir, mkdir_wiki.
  unfold bind at 1 2 3 4 5 6. unfold try_finally, sys_exit, ret, act at 1 2; simpl.
  rewrite Hd; simpl.
  unfold bind at 1 2 3 4, act at 1 2; simpl.
  destruct (discover listing) as [|e es] eqn:E; [congruence|].
  unfold bind at 1 2.
  erewrite for_each_eq; [|reflexivity|reflexivity]. simpl next_page. simpl log.
  destruct (loop_outcome w 0 (e :: es)) as [[]|x|msg]; simpl;
    unfold print, act, emit, bind; simpl; rewrite <- ?app_assoc; reflexivity.
Qed.

(** The run when the entries directory is not there. *)
Lemma run_no_directory :
  path_is_dir (entries_dir w) = false ->
  run w = (Exit ("Entries directory not found: " +:+ cwd w +:+ "/" +:+ ENTRIES_DIR),
           initial w).
Proof.
  intros Hd. unfold run, main, module_init, bind, sys_exit.
  rewrite Hd, orb_true_r. reflexivity.
Qed.

End WholeRun.

Section LoopFacts.

Variable w : world.

Lemma loop_outcome_ok (np : nat) (es : list dirent) :
  loop_outcome w np es = Ok tt <->
  forall k, k < length es -> new_page_exn w (np + k) = None.
Proof.
  revert np. induction es as [|e es IH]; intros np; simpl.
  - split; [intros _ k Hk; lia | reflexivity].
  - destruct (new_page_exn w np) as [x|] eqn:Hn.
    + split; [discriminate|]. intros H.
      specialize (H 0). rewrite Nat.add_0_r, Hn in H.
      assert (0 < S (length es)) as H0 by lia. apply H in H0. discriminate.
    + rewrite IH. split.
      * intros H [|k] Hk; [now rewrite Nat.add_0_r|].
        rewrite <- Nat.add_succ_comm. apply H. lia.
      * intros H k Hk. rewrite Nat.add_succ_comm. apply H. lia.
Qed.

Lemma loop_outcome_raise (np : nat) (es : list dirent) (x : exn) :
  loop_outcome w np es = Raise x <->
  exists k, k < length es /\ new_page_exn w (np + k) = Some x /\
            forall j, j < k -> new_page_exn w (np + j) = None.
Proof.
  revert np. induction es as [|e es IH]; intros np; simpl.
  - split; [discriminate | intros [k [Hk _]]; lia].
  - destruct (new_page_exn w np) as [y|] eqn:Hn.
    + split.
      * intros H. injection H as ->. exists 0.
        rewrite Nat.add_0_r. repeat split; [lia | exact Hn | intros j Hj; lia].
      * intros [[|k] [Hk [Hx Hj]]].
        -- rewrite Nat.add_0_r in Hx. congruence.
        -- specialize (Hj 0). rewrite Nat.add_0_r, Hn in Hj.
           assert (0 < S k) as H0 by lia. apply Hj in H0. discriminate.
    + rewrite IH. split.
      * intros [k [Hk [Hx Hj]]]. exists (S k).
        rewrite <- Nat.add_succ_comm. repeat split; [lia | exact Hx |].
        intros [|j] Hlt; [now rewrite Nat.add_0_r|].
        rewrite <- Nat.add_succ_comm. apply Hj. lia.
      * intros [[|k] [Hk [Hx Hj]]].
        -- rewrite Nat.add_0_r in Hx. congruence.
        -- exists k. rewrite Nat.add_succ_comm. repeat split; [lia | exact Hx |].
           intros j Hlt. rewrite Nat.add_succ_comm. apply Hj. lia.
Qed.

Lemma loop_outcome_no_exit (np : nat) (es : list dirent) (msg : string) :
  loop_outcome w np es <> Exit msg.
Proof.
  revert np. induction es as [|e es IH]; intros np; simpl; [discriminate|].
  destruct (new_page_exn w np); [discriminate | apply IH].
Qed.

(** The outcome of the run, whatever the directory holds. *)
Lemma run_outcome_eq :
  (run w).1 =
    match entries_dir w with
    | Directory listing => loop_outcome w 0 (discover listing)
    | _ => Exit ("Entries directory not found: " +:+ cwd w +:+ "/" +:+ ENTRIES_DIR)
    end.
Proof.
  destruct (entries_dir w) as [| |listing] eqn:Hd;
    try (rewrite run_no_directory; [reflexivity | now rewrite Hd]).
  destruct (discover listing) as [|e es] eqn:He.
  - now rewrite (run_nothing w listing Hd He).
  - rewrite (run_entries w listing Hd); rewrite He; [reflexivity | discriminate].
Qed.

End LoopFacts.

(** ** The shape of the log *)

Section LogShape.

Variable w : world.

Lemma console_belongs (p : nat) (e : dirent) (msgs : list console_message) :
  Forall (fun ev => belongs p e ev = true) (flat_map console_handler msgs).
Proof.
  induction msgs as [|m msgs IH]; simpl; [constructor|].
  apply Forall_app. split; [|exact IH].
  unfold console_handler. destruct (_ || _); repeat constructor.
Qed.

Lemma entry_body_belongs (base : string) (p : nat) (e : dirent) :
  Forall (fun ev => belongs p e ev = true) (entry_body w base p e).
Proof.
  assert (Hp : bool_decide (p = p) = true) by now apply bool_decide_eq_true.
  assert (Hn : forall s : string, bool_decide (s = s) = true)
    by (intros; now apply bool_decide_eq_true).
  unfold entry_body.
  repeat first
    [ apply Forall_nil_2
    | apply Forall_cons; split; [simpl; auto|]
    | apply Forall_app; split; [apply console_belongs|]
    | apply Forall_app; split
    | match goal with |- context [match ?x with _ => _ end] => destruct x end ].
Qed.

Lemma entry_log_is_turn (base : string) (p : nat) (e : dirent) :
  is_turn p e (entry_log w base p e).
Proof.
  exists (entry_body w base p e). split; [reflexivity | apply entry_body_belongs].
Qed.

(** The log of the loop is made of complete turns of the first entries, in
    order, followed by the announcement of the entry whose page could not
    be made, if the loop ends that way. *)
Lemma loop_log_turns (np : nat) (es : list dirent) :
  exists segs,
    turns np es segs /\
    ((loop_outcome w np es = Ok tt /\ length segs = length es /\
      loop_log w np es = concat segs) \/
     (exists e x, loop_outcome w np es = Raise x /\
                  es !! length segs = Some e /\
                  loop_log w np es = concat segs ++ [announce e])).
Proof.
  revert np. induction es as [|e es IH]; intros np; cbn [loop_outcome loop_log].
  - exists []. split; [exact I|]. left. repeat split.
  - destruct (new_page_exn w np) as [x|] eqn:Hn.
    + exists []. split; [exact I|]. right. exists e, x. repeat split.
    + destruct (IH (S np)) as [segs [Ht Hcase]].
      exists (entry_log w (base_url w) np e :: segs). split.
      * split; [apply entry_log_is_turn | exact Ht].
      * destruct Hcase as [[Ho [Hl Hlog]] | [e' [x [Ho [Hl Hlog]]]]].
        -- left. cbn [concat length]. rewrite Hl, Hlog. repeat split; auto.
        -- right. exists e', x. cbn [concat length]. rewrite Hlog, <- app_assoc.
           split; [exact Ho|]. split; [exact Hl | reflexivity].
Qed.

Lemma turn_events (p : nat) (e : dirent) (seg : list event) (ev : event) :
  is_turn p e seg -> ev ∈ seg ->
  ev = announce e \/ ev = EvNewPage p \/ ev = EvClose p \/ belongs p e ev = true.
Proof.
  intros [body [-> Hb]] Hin.
  apply elem_of_cons in Hin as [-> | Hin]; [auto|].
  apply elem_of_cons in Hin as [-> | Hin]; [auto|].
  apply elem_of_app in Hin as [Hin | Hin].
  - right. right. right. rewrite Forall_forall in Hb. now apply Hb.
  - apply list_elem_of_singleton in Hin as ->. auto.
Qed.

Lemma turns_events (p : nat) (es : list dirent) (segs : list (list event)) (ev : event) :
  turns p es segs -> ev ∈ concat segs ->
  exists q e, ev = announce e \/ ev = EvNewPage q \/ ev = EvClose q \/
              belongs q e ev = true.
Proof.
  revert p es. induction segs as [|seg segs IH]; intros p es Ht Hin; simpl in *.
  - inversion Hin.
  - destruct es as [|e es]; [contradiction|]. destruct Ht as [Hturn Ht].
    apply elem_of_app in Hin as [Hin | Hin].
    + exists p, e. now apply turn_events with (seg := seg).
    + now apply IH with (p := S p) (es := es).
Qed.

Lemma loop_log_no_mkdir (np : nat) (es : list dirent) (path : string) :
  EvMkdir path ∉ loop_log w np es.
Proof.
  intros Hin.
  destruct (loop_log_turns np es) as [segs [Ht [[_ [_ Hlog]] | [e [x [_ [_ Hlog]]]]]]];
    rewrite Hlog in Hin.
  - destruct (turns_events np es segs _ Ht Hin) as [q [e [H|[H|[H|H]]]]]; discriminate.
  - apply elem_of_app in Hin as [Hin | Hin].
    + destruct (turns_events np es segs _ Ht Hin) as [q [e' [H|[H|[H|H]]]]]; discriminate.
    + apply list_elem_of_singleton in Hin. discriminate.
Qed.





End LogShape.

(** ** What a turn leaves on disk and in the log *)

Section Outputs.

Variable w : world.

Lemma verdict_of_name (base : string) (e e' : dirent) :
  d_name e = d_name e' -> verdict_of w base e = verdict_of w base e'.
Proof. intros H. unfold verdict_of, entry_url. now rewrite H. Qed.

Lemma settle_idem (v : verdict) (old : option string) :
  settle v (settle v old) = settle v old.
Proof. destruct v; reflexivity. Qed.

Lemma files_after_lookup (base : string) (files : gmap string string) (a e : dirent) :
  files_after w base files a !! d_name e =
    if bool_decide (d_name a = d_name e)
    then settle (verdict_of w base e) (files !! d_name e)
    else files !! d_name e.
Proof.
  unfold files_after. case_bool_decide as Hn.
  - rewrite (verdict_of_name base a e Hn).
    destruct (verdict_of w base e); simpl; try reflexivity;
      rewrite Hn; apply lookup_insert_eq.
  - destruct (verdict_of w base a); try reflexivity; now apply lookup_insert_ne.
Qed.

(** The file of an entry after the loop is what it was or what a turn of
    an entry of that name makes of it. *)
Lemma loop_files_either (np : nat) (files : gmap string string) (es : list dirent)
    (e : dirent) :
  loop_files w np files es !! d_name e = files !! d_name e \/
  loop_files w np files es !! d_name e
    = settle (verdict_of w (base_url w) e) (files !! d_name e).
Proof.
  revert np files. induction es as [|a es IH]; intros np files; cbn [loop_files].
  - now left.
  - destruct (new_page_exn w np); [now left|].
    destruct (IH (S np) (files_after w (base_url w) files a)) as [H | H];
      rewrite H, files_after_lookup; case_bool_decide; auto.
    right. apply settle_idem.
Qed.

(** The file of an entry after the loop, when every page could be made. *)
Lemma loop_files_lookup (np : nat) (files : gmap string string) (es : list dirent)
    (e : dirent) :
  (forall k, k < length es -> new_page_exn w (np + k) = None) ->
  loop_files w np files es !! d_name e =
    if bool_decide (d_name e ∈ map d_name es)
    then settle (verdict_of w (base_url w) e) (files !! d_name e)
    else files !! d_name e.
Proof.
  revert np files. induction es as [|a es IH]; intros np files Hnp.
  - reflexivity.
  - cbn [loop_files map].
    rewrite <- (Nat.add_0_r np) at 1. rewrite (Hnp 0) by (simpl; lia).
    rewrite IH.
    2:{ intros k Hk. rewrite Nat.add_succ_comm. apply Hnp. simpl. lia. }
    rewrite files_after_lookup.
    repeat case_bool_decide; try reflexivity; try apply settle_idem; exfalso.
    + match goal with H : ¬ _ ∈ _ :: _ |- _ => apply H end. now right.
    + match goal with H : ¬ _ ∈ _ :: _ |- _ => apply H end. now right.
    + match goal with H : ¬ _ ∈ _ :: _ |- _ => apply H end.
      match goal with H : d_name a = d_name e |- _ => rewrite H end. left.
    + match goal with H : _ ∈ _ :: _ |- _ => apply elem_of_cons in H as [H|H] end;
        [congruence | contradiction].
Qed.

(** The file of the entry at position [i], when the pages of the entries
    up to it could be made. *)
Lemma loop_files_at (np : nat) (files : gmap string string) (es : list dirent)
    (i : nat) (e : dirent) :
  es !! i = Some e ->
  (forall k, k <= i -> new_page_exn w (np + k) = None) ->
  loop_files w np files es !! d_name e
    = settle (verdict_of w (base_url w) e) (files !! d_name e).
Proof.
  revert np files i. induction es as [|a es IH]; intros np files i Hi Hnp;
    [discriminate|].
  cbn [loop_files].
  rewrite <- (Nat.add_0_r np) at 1. rewrite (Hnp 0) by lia.
  destruct i as [|i]; cbn in Hi.
  - injection Hi as ->.
    destruct (loop_files_either (S np) (files_after w (base_url w) files e) es e)
      as [H | H]; rewrite H, files_after_lookup;
      rewrite bool_decide_eq_true_2 by reflexivity;
      [reflexivity | apply settle_idem].
  - rewrite (IH (S np) _ i Hi).
    2:{ intros k Hk. rewrite Nat.add_succ_comm. apply Hnp. lia. }
    rewrite files_after_lookup. case_bool_decide; [apply settle_idem | reflexivity].
Qed.

Lemma announce_in_loop_log (np : nat) (es : list dirent) (e : dirent) :
  (forall k, k < length es -> new_page_exn w (np + k) = None) ->
  e ∈ es -> announce e ∈ loop_log w np es.
Proof.
  revert np. induction es as [|a es IH]; intros np Hnp Hin; [inversion Hin|].
  cbn [loop_log].
  rewrite <- (Nat.add_0_r np) at 1. rewrite (Hnp 0) by (simpl; lia).
  apply elem_of_app. apply elem_of_cons in Hin as [-> | Hin].
  - left. unfold entry_log. left.
  - right. apply IH; [|exact Hin].
    intros k Hk. rewrite Nat.add_succ_comm. apply Hnp. simpl. lia.
Qed.

(** The entry at position [i] is announced when the pages of the entries
    before it could be made. *)
Lemma announce_at (np : nat) (es : list dirent) (i : nat) (e : dirent) :
  es !! i = Some e ->
  (forall k, k < i -> new_page_exn w (np + k) = None) ->
  announce e ∈ loop_log w np es.
Proof.
  revert np i. induction es as [|a es IH]; intros np i Hi Hnp; [discriminate|].
  cbn [loop_log]. destruct i as [|i]; cbn in Hi.
  - injection Hi as ->. destruct (new_page_exn w np); [left|].
    apply elem_of_app. left. left.
  - rewrite <- (Nat.add_0_r np) at 1. rewrite (Hnp 0) by lia.
    apply elem_of_app. right. apply (IH (S np) i Hi).
    intros k Hk. rewrite Nat.add_succ_comm. apply Hnp. lia.
Qed.

Lemma console_events (msgs : list console_message) (ev : event) :
  ev ∈ flat_map console_handler msgs -> exists t x, ev = EvPrint (MsgConsole t x).
Proof.
  induction msgs as [|m msgs IH]; simpl; [inversion 1|].
  intros Hin. apply elem_of_app in Hin as [Hin | Hin]; [|now apply IH].
  unfold console_handler in Hin. destruct (_ || _); [|inversion Hin].
  apply list_elem_of_singleton in Hin. eauto.
Qed.

Lemma last_cons (d cur : document) (l : list document) :
  List.last (d :: l) cur = List.last l d.
Proof.
  revert d cur. induction l as [|a l IH]; intros d cur; [reflexivity|].
  change (List.last (d :: a :: l) cur) with (List.last (a :: l) cur).
  rewrite (IH a cur). symmetry. apply IH.
Qed.

(** When the wait runs through instants at none of which the predicate
    holds, it times out on the last document. *)
Lemma poll_until_timeout (cur : document) (ticks : list document) :
  Forall (fun d => JS.ready (projectContent d) = false) (cur :: ticks) ->
  poll_until cur (Tick <$> ticks) = TimedOut (List.last ticks cur).
Proof.
  revert cur. induction ticks as [|d ticks IH]; intros cur Hall;
    inversion Hall as [|? ? Hcur Hrest]; subst.
  - simpl. now rewrite Hcur.
  - cbn [fmap list_fmap poll_until]. rewrite Hcur, (IH d Hrest).
    now rewrite last_cons.
Qed.

Ltac in_list :=
  repeat first
    [ apply elem_of_cons; left; reflexivity
    | apply elem_of_cons; right
    | apply elem_of_app; right ].

Ltac not_in_list H :=
  repeat first
    [ apply elem_of_cons in H as [H|H]; [discriminate|]
    | apply elem_of_app in H as [H|H];
        [apply console_events in H as [? [? H]]; discriminate|]
    | inversion H; fail ].

(** The lines of a turn that ends with the file written. *)
Lemma written_log (base : string) (p : nat) (e : dirent) (warned : bool) (html : string) :
  verdict_of w base e = Written warned html ->
  EvPrint (MsgSaved (WIKI_DIR +:+ "/" +:+ d_name e) (String.length html))
    ∈ entry_body w base p e /\
  (warned = true ->
   EvPrint (MsgWarnTimeout (Pathlib.stem (d_name e))) ∈ entry_body w base p e) /\
  (forall x, EvPrint (MsgFailed (Pathlib.stem (d_name e)) x) ∉ entry_body w base p e).
Proof.
  unfold verdict_of, entry_body.
  destruct (nav _); [discriminate|].
  destruct (waited _) as [x|[wd d]]; [discriminate|].
  destruct (capture _); [discriminate|].
  destruct (write_exn _ _) as [[y|y k]|]; [discriminate..|].
  intros [= -> <-]. repeat split.
  - destruct warned; in_list.
  - intros ->. in_list.
  - intros x H. destruct warned; simpl in H; not_in_list H.
Qed.

(** The lines of a turn that ends with an exception. *)
Lemma failed_log (base : string) (p : nat) (e : dirent) (x : exn) :
  (verdict_of w base e = Skipped x \/ exists part, verdict_of w base e = Cut x part) ->
  EvPrint (MsgFailed (Pathlib.stem (d_name e)) x) ∈ entry_body w base p e /\
  (forall path n, EvPrint (MsgSaved path n) ∉ entry_body w base p e).
Proof.
  unfold verdict_of, entry_body.
  destruct (nav _) as [y|].
  { intros [[= ->] | [part [=]]]. split; [in_list | intros path n H; not_in_list H]. }
  destruct (waited _) as [y|[wd d]].
  { intros [[= ->] | [part [=]]]. split; [in_list | intros path n H; not_in_list H]. }
  destruct (capture _) as [y|].
  { intros [[= ->] | [part [=]]]. split; [destruct wd; in_list|].
    intros path n H. destruct wd; simpl in H; not_in_list H. }
  destruct (write_exn _ _) as [[y|y k]|]; simpl.
  - intros [[= ->] | [part [=]]]. split; [destruct wd; in_list|].
    intros path n H. destruct wd; simpl in H; not_in_list H.
  - intros [[=] | [part [= -> _]]]. split; [destruct wd; in_list|].
    intros path n H. destruct wd; simpl in H; not_in_list H.
  - intros [[=] | [part [=]]].
Qed.

(** After a timeout the warning is printed and the capture is attempted,
    whatever comes of it. *)
Lemma warned_log (base : string) (p : nat) (e : dirent) (d : document) :
  nav (site w (entry_url base e)) = None ->
  waited (site w (entry_url base e)) = inr (true, d) ->
  EvPrint (MsgWarnTimeout (Pathlib.stem (d_name e))) ∈ entry_body w base p e /\
  EvContent p ∈ entry_body w base p e.
Proof.
  intros Hnav Hwait. unfold entry_body. rewrite Hnav, Hwait. split; in_list.
Qed.

Lemma verdict_written (base : string) (e : dirent) (warned : bool) (d : document) :
  nav (site w (entry_url base e)) = None ->
  waited (site w (entry_url base e)) = inr (warned, d) ->
  capture (site w (entry_url base e)) = None ->
  write_exn w (d_name e) = None ->
  verdict_of w base e
    = Written warned (markup (captured (site w (entry_url base e)) d)).
Proof. intros H1 H2 H3 H4. unfold verdict_of. now rewrite H1, H2, H3, H4. Qed.

Lemma verdict_cut (base : string) (e : dirent) (warned : bool) (d : document)
    (x : exn) (reached : nat) :
  nav (site w (entry_url base e)) = None ->
  waited (site w (entry_url base e)) = inr (warned, d) ->
  capture (site w (entry_url base e)) = None ->
  write_exn w (d_name e) = Some (FailsAfterOpen x reached) ->
  verdict_of w base e
    = Cut x (Str.take reached (markup (captured (site w (entry_url base e)) d))).
Proof. intros H1 H2 H3 H4. unfold verdict_of. now rewrite H1, H2, H3, H4. Qed.

Lemma verdict_skipped (base : string) (e : dirent) :
  is_Some (nav (site w (entry_url base e))) \/
  (exists x, waited (site w (entry_url base e)) = inl x) \/
  is_Some (capture (site w (entry_url base e))) \/
  (exists x, write_exn w (d_name e) = Some (FailsAtOpen x)) ->
  exists x, verdict_of w base e = Skipped x.
Proof.
  unfold verdict_of. intros H.
  destruct (nav _) as [x|]; [eauto|].
  destruct (waited _) as [x|[wd d]]; [eauto|].
  destruct (capture _) as [x|]; [eauto|].
  destruct (write_exn _ _) as [[x|x k]|]; [eauto|exfalso..];
    destruct H as [[? H]|[[? H]|[[? H]|[? H]]]]; discriminate.
Qed.

End Outputs.

(** ** The run as a whole *)

Section Run.

Import Scenarios MoreScenarios.

(** C7. When the entries path is missing or is not a directory, the run
    stops at once with SystemExit and the diagnostic naming the resolved
    path: nothing has been done by then, so wiki/ is as it was (not created
    if it was absent), no server is started, the directory is not listed
    and no entry is processed. *)
Theorem no_entries_dir_aborts (w : world) :
  entries_dir w = Missing \/ entries_dir w = NotADirectory ->
  (run w).1 = Exit ("Entries directory not found: " +:+ cwd w +:+ "/" +:+ ENTRIES_DIR) /\
  wiki (run w).2 = wiki_before w /\
  pages (run w).2 = ∅ /\
  log (run w).2 = [].
Proof.
  intros Hd. rewrite run_no_directory; [repeat split|].
  destruct Hd as [-> | ->]; reflexivity.
Qed.

Lemma no_entries_dir_aborts_witness :
  (entries_dir w_missing = Missing \/ entries_dir w_missing = NotADirectory) /\
  (run w_missing).1 = Exit "Entries directory not found: /srv/site/entries" /\
  wiki (run w_missing).2 = None /\
  pages (run w_missing).2 = ∅ /\
  log (run w_missing).2 = [].
Proof.
  split; [left; reflexivity|].
  apply (no_entries_dir_aborts w_missing). left. reflexivity.
Defined.

(** C8. When the entries directory exists and none of its children is a
    regular file with suffix ".html" (up to case), the run says that there
    is nothing to render and returns normally: no page is made, nothing is
    written, and the files of wiki/ are those it had. *)
Theorem nothing_to_render (w : world) (listing : list dirent) :
  entries_dir w = Directory listing ->
  (forall f, f ∈ listing ->
             ~ (d_is_file f = true /\ Str.lower (Pathlib.suffix (d_name f)) = ".html")) ->
  (run w).1 = Ok tt /\
  wiki (run w).2 = Some (default ∅ (wiki_before w)) /\
  log (run w).2 =
    [EvMkdir WIKI_DIR; EvServe (free_port w); EvSleep; EvLaunch; EvNewContext;
     EvIterdir ENTRIES_DIR; EvPrint MsgNothing; EvBrowserClose; EvStop].
Proof.
  intros Hd Hnone.
  assert (He : discover listing = []).
  { destruct (discover listing) as [|e es] eqn:E; [reflexivity|]. exfalso.
    assert (Hin : e ∈ discover listing) by (rewrite E; left).
    apply discover_elem in Hin as [Hin Hent].
    apply (Hnone e Hin). now apply is_entry_iff. }
  rewrite (run_nothing w listing Hd He). repeat split.
Qed.

Lemma nothing_to_render_witness :
  entries_dir w_nothing =
    Directory [Dirent "gamma.txt" true; Dirent "drafts.html" false] /\
  (run w_nothing).1 = Ok tt /\
  wiki (run w_nothing).2 = Some ∅ /\
  log (run w_nothing).2 =
    [EvMkdir "wiki"; EvServe 8000; EvSleep; EvLaunch; EvNewContext;
     EvIterdir "entries"; EvPrint MsgNothing; EvBrowserClose; EvStop].
Proof.
  split; [reflexivity|].
  apply (nothing_to_render w_nothing
           [Dirent "gamma.txt" true; Dirent "drafts.html" false]); [reflexivity|].
  intros f Hf [Hfile Hsuf].
  apply list_elem_of_In in Hf. simpl in Hf.
  destruct Hf as [<- | [<- | []]]; vm_compute in Hfile, Hsuf; discriminate.
Defined.

(** C10. When the entries directory exists, creating wiki/ is the first
    thing the run does, before the server is started and before the
    directory is listed, and wiki/ exists when the run is over, however it
    ends; over a directory without entries it holds the files it had, none
    if it was absent. *)
Theorem wiki_dir_created_first (w : world) (listing : list dirent) :
  entries_dir w = Directory listing ->
  (exists rest,
     log (run w).2 =
       EvMkdir WIKI_DIR :: EvServe (free_port w) :: EvSleep :: EvLaunch ::
       EvNewContext :: EvIterdir ENTRIES_DIR :: rest /\
     EvMkdir WIKI_DIR ∉ rest) /\
  is_Some (wiki (run w).2) /\
  (discover listing = [] -> wiki (run w).2 = Some (default ∅ (wiki_before w))).
Proof.
  intros Hd. destruct (discover listing) as [|e es] eqn:He.
  - rewrite (run_nothing w listing Hd He). simpl. repeat split; eauto.
    eexists. split; [reflexivity|].
    intros Hin. repeat (apply elem_of_cons in Hin as [Hin|Hin]; [discriminate|]).
    inversion Hin.
  - rewrite (run_entries w listing Hd) by (rewrite He; discriminate).
    simpl. repeat split; eauto; [|discriminate].
    eexists. split; [reflexivity|]. rewrite He.
    apply not_elem_of_app. split.
    + apply loop_log_no_mkdir.
    + destruct (loop_outcome w 0 (e :: es)); intros Hin;
        repeat (apply elem_of_cons in Hin as [Hin|Hin]; [discriminate|]);
        inversion Hin.
Qed.

Lemma wiki_dir_created_first_witness :
  entries_dir w_nothing =
    Directory [Dirent "gamma.txt" true; Dirent "drafts.html" false] /\
  wiki_before w_nothing = None /\
  wiki (run w_nothing).2 = Some ∅.
Proof.
  split; [reflexivity|]. split; [reflexivity|].
  apply (wiki_dir_created_first w_nothing
           [Dirent "gamma.txt" true; Dirent "drafts.html" false]); reflexivity.
Defined.

(** C4 (amended). How the run ends does not depend on what goto,
    wait_for_function, content and write_text do: no exception raised inside
    the try block of an entry leaves the loop.  The run ends with SystemExit
    exactly when the entries path is not a directory; it ends with an
    exception exactly when context.new_page, which is called before the try
    block, raises it for some entry, the first for which it raises; and it
    returns normally otherwise. *)
Theorem run_outcome (w : world) :
  (forall msg, (run w).1 = Exit msg <->
     path_is_dir (entries_dir w) = false /\
     msg = "Entries directory not found: " +:+ cwd w +:+ "/" +:+ ENTRIES_DIR) /\
  (forall x, (run w).1 = Raise x <->
     exists listing k,
       entries_dir w = Directory listing /\ k < length (discover listing) /\
       new_page_exn w k = Some x /\ forall j, j < k -> new_page_exn w j = None) /\
  ((run w).1 = Ok tt <->
     exists listing,
       entries_dir w = Directory listing /\
       forall k, k < length (discover listing) -> new_page_exn w k = None).
Proof.
  rewrite run_outcome_eq.
  destruct (entries_dir w) as [| |listing] eqn:Hd; cbn [path_is_dir].
  - split; [|split].
    + intros msg. split; [intros [= <-]; now split | intros [_ ->]; reflexivity].
    + intros x. split; [discriminate | intros [l [k [Hl _]]]; discriminate].
    + split; [discriminate | intros [l [Hl _]]; discriminate].
  - split; [|split].
    + intros msg. split; [intros [= <-]; now split | intros [_ ->]; reflexivity].
    + intros x. split; [discriminate | intros [l [k [Hl _]]]; discriminate].
    + split; [discriminate | intros [l [Hl _]]; discriminate].
  - split; [|split].
    + intros msg. split; [|intros [Hf _]; discriminate].
      intros Ho. now apply loop_outcome_no_exit in Ho.
    + intros x. split.
      * intros Ho. apply loop_outcome_raise in Ho as [k Hk].
        exists listing, k. now split.
      * intros [l [k [Hl Hk]]]. injection Hl as <-.
        apply loop_outcome_raise. now exists k.
    + split.
      * intros Ho. exists listing. split; [reflexivity|].
        now apply (loop_outcome_ok w 0).
      * intros [l [Hl Hk]]. injection Hl as <-. now apply (loop_outcome_ok w 0).
Qed.

(** The claim as C4 states it fails: the entries directory is there, the
    second call of context.new_page raises, and the exception leaves the
    loop and the run; delta.html is never attempted. *)
Lemma new_page_exception_propagates :
  path_is_dir (entries_dir w_gone) = true /\
  discover the_listing =
    [Dirent "alpha.html" true; Dirent "beta.html" true; Dirent "delta.html" true] /\
  (for_each (render_entry w_gone (base_url w_gone)) (discover the_listing)
            (State (Some ∅) ∅ 0 [])).1 = Raise browser_gone /\
  (run w_gone).1 = Raise browser_gone /\
  announce (Dirent "delta.html" true) ∉ log (run w_gone).2.
Proof.
  repeat split; try (vm_compute; reflexivity).
  intros Hin. vm_compute in Hin.
  repeat (apply elem_of_cons in Hin as [Hin|Hin]; [discriminate|]).
  inversion Hin.
Qed.

(** C6. The entries are taken in the order of their names, one at a time:
    after the set-up, the log is a sequence of complete turns, one for each
    of the first entries in that order, each from the announcement of its
    entry to the closing of its page and holding nothing but actions of
    that entry; what follows belongs to no entry, unless the loop ended on
    an entry whose page could not be made, which is then the next one. *)
Theorem one_entry_at_a_time (w : world) (listing : list dirent) :
  entries_dir w = Directory listing ->
  StronglySorted (fun a b => (d_name a ≤ d_name b)%string) (discover listing) /\
  exists segs rest,
    log (run w).2 = prelude w ++ concat segs ++ rest /\
    turns 0 (discover listing) segs /\
    ((length segs = length (discover listing) /\
      Forall (fun ev => neutral ev = true /\ forall p e, belongs p e ev = false) rest) \/
     (exists e, discover listing !! length segs = Some e /\
                rest = [announce e; EvStop])).
Proof.
  intros Hd. split; [apply discover_sorted|].
  destruct (discover listing) as [|e0 es0] eqn:He.
  - rewrite (run_nothing w listing Hd He).
    exists [], [EvPrint MsgNothing; EvBrowserClose; EvStop].
    repeat split; simpl; auto. left. repeat split; repeat constructor.
  - rewrite (run_entries w listing Hd) by (rewrite He; discriminate).
    rewrite He. cbn [snd log].
    destruct (loop_log_turns w 0 (e0 :: es0))
      as [segs [Ht [[Ho [Hl Hlog]] | [e [x [Ho [Hl Hlog]]]]]]]; rewrite Ho, Hlog.
    + exists segs, [EvBrowserClose; EvStop; EvPrint MsgDone].
      repeat split; auto. left. repeat split; [exact Hl | repeat constructor].
    + exists segs, [announce e; EvStop]. rewrite <- app_assoc.
      repeat split; auto. right. exists e. split; [exact Hl | reflexivity].
Qed.

Lemma one_entry_at_a_time_witness :
  entries_dir w_mixed = Directory the_listing /\
  StronglySorted (fun a b => (d_name a ≤ d_name b)%string) (discover the_listing) /\
  exists segs rest,
    log (run w_mixed).2 = prelude w_mixed ++ concat segs ++ rest /\
    turns 0 (discover the_listing) segs /\
    ((length segs = length (discover the_listing) /\
      Forall (fun ev => neutral ev = true /\ forall p e, belongs p e ev = false) rest) \/
     (exists e, discover the_listing !! length segs = Some e /\
                rest = [announce e; EvStop])).
Proof.
  split; [reflexivity|].
  apply (one_entry_at_a_time w_mixed the_listing). reflexivity.
Defined.


(** C1 (amended). Take a discovered entry such that a page can be made
    for it and for the entries before it.  The entry is attempted, and so is
    the entry after it, if there is one, whatever happens in the turn.  When
    neither the navigation, nor the wait (a readiness timeout left aside),
    nor the capture raises: if the write raises nothing, the file of the
    same name under wiki/ holds the markup the capture returned; if the
    write raises once the file is open, the file holds the part of that
    markup that reached it.  When the navigation, the wait with an exception
    other than the timeout, the capture or the opening of the file raises,
    the file is as it was before the run. *)
Theorem each_entry_saved_or_skipped (w : world) (listing : list dirent)
    (i : nat) (e : dirent) :
  entries_dir w = Directory listing ->
  discover listing !! i = Some e ->
  (forall k, k <= i -> new_page_exn w k = None) ->
  let sc := site w (entry_url (base_url w) e) in
  announce e ∈ log (run w).2 /\
  (forall e', discover listing !! S i = Some e' -> announce e' ∈ log (run w).2) /\
  (forall warned d,
      nav sc = None -> waited sc = inr (warned, d) -> capture sc = None ->
      (write_exn w (d_name e) = None ->
       file_of (wiki (run w).2) (d_name e) = Some (markup (captured sc d))) /\
      (forall x reached,
          write_exn w (d_name e) = Some (FailsAfterOpen x reached) ->
          file_of (wiki (run w).2) (d_name e)
            = Some (Str.take reached (markup (captured sc d))))) /\
  (is_Some (nav sc) \/ (exists x, waited sc = inl x) \/
   is_Some (capture sc) \/ (exists x, write_exn w (d_name e) = Some (FailsAtOpen x)) ->
   file_of (wiki (run w).2) (d_name e) = file_of (wiki_before w) (d_name e)).
Proof.
  intros Hd Hi Hnp sc.
  assert (Hne : discover listing <> []) by (intros E; rewrite E in Hi; discriminate).
  rewrite (run_entries w listing Hd Hne). cbn [snd log wiki]. unfold file_of.
  cbn [mbind option_bind].
  rewrite (loop_files_at w 0 _ _ i e Hi Hnp).
  assert (Hfb : files_before w !! d_name e
                = wiki_before w ≫= (fun files => files !! d_name e)).
  { unfold files_before. destruct (wiki_before w); [reflexivity | apply lookup_empty]. }
  split; [|split; [|split]].
  - apply elem_of_app. right. apply elem_of_app. left.
    apply (announce_at w 0 _ i e Hi). intros k Hk. apply Hnp. lia.
  - intros e' Hi'. apply elem_of_app. right. apply elem_of_app. left.
    apply (announce_at w 0 _ (S i) e' Hi'). intros k Hk. apply Hnp. lia.
  - intros warned d H1 H2 H3. split.
    + intros H4. now rewrite (verdict_written w _ e warned d H1 H2 H3 H4).
    + intros x reached H4. now rewrite (verdict_cut w _ e warned d x reached H1 H2 H3 H4).
  - intros Hx. destruct (verdict_skipped w _ e Hx) as [x ->]. exact Hfb.
Qed.

Lemma each_entry_saved_or_skipped_witness :
  let alpha := Dirent "alpha.html" true in
  entries_dir w_torn = Directory the_listing /\
  discover the_listing !! 0 = Some alpha /\
  (forall k, k <= 0 -> new_page_exn w_torn k = None) /\
  announce alpha ∈ log (run w_torn).2 /\
  announce (Dirent "beta.html" true) ∈ log (run w_torn).2 /\
  file_of (wiki (run w_torn).2) "alpha.html" = Some "<div id=".
Proof.
  intros alpha.
  split; [reflexivity|]. split; [reflexivity|]. split; [intros; reflexivity|].
  destruct (each_entry_saved_or_skipped w_torn the_listing 0 alpha eq_refl eq_refl
              (fun k _ => eq_refl)) as [Ha [Hnext [Hw _]]].
  split; [exact Ha|]. split; [apply Hnext; reflexivity|].
  destruct (Hw false fort_doc eq_refl eq_refl eq_refl) as [_ Hcut].
  exact (Hcut disk_full 8 eq_refl).
Defined.

(** The claim as C1 states it fails three times.  In the first world the
    wait for beta raises (the readiness timeout) and wiki/beta.html is
    written all the same.  In the second the page of beta cannot be made:
    nothing is written for beta though none of its navigation, wait,
    capture and write raised, none having been called, and delta.html is
    never attempted, while alpha.html, taken before, is written.  In the
    third the write of alpha.html raises once the file is open, and the
    file, absent before, is there with the first bytes of the markup. *)
Lemma per_entry_claim_fails :
  let beta := Dirent "beta.html" true in
  let url := entry_url (base_url w_mixed) beta in
  let st0 := State (Some ∅) ∅ 0 [] in
  let st1 := ((page <- new_page w_mixed ;; page_on page ;; goto w_mixed page url) st0).2 in
  ((wait_for_function 0 st1).1 = Raise timeout_error /\
   file_of (wiki (run w_mixed).2) "beta.html"
     = Some "<div id='projectContent'>Loading...</div>") /\
  ((run w_gone).1 = Raise browser_gone /\
   file_of (wiki (run w_gone).2) "beta.html" = None /\
   file_of (wiki (run w_gone).2) "alpha.html"
     = Some "<div id='projectContent'>Colombo Fort</div>" /\
   log (run w_gone).2 =
     prelude w_gone ++
     entry_log w_gone (base_url w_gone) 0 (Dirent "alpha.html" true) ++
     [announce beta; EvStop]) /\
  ((write_text w_torn "alpha.html" "<div id='projectContent'>Colombo Fort</div>" st0).1
     = Raise disk_full /\
   file_of (wiki_before w_torn) "alpha.html" = None /\
   file_of (wiki (run w_torn).2) "alpha.html" = Some "<div id=").
Proof. vm_compute. repeat split. Qed.

(** C3 (amended). A turn whose page is made always ends normally.  When
    the navigation succeeds and the wait runs out, the predicate holding at
    none of its instants, the timeout does not fail the entry: the warning
    is printed and the capture is attempted; provided the capture and the
    write raise nothing, the file of the entry holds the markup of the
    document the page shows at the capture, the line of success is printed
    and none of failure.  When the navigation, the wait with an exception
    other than the timeout, the capture or the opening of the file raises,
    nothing is written and the line of failure is printed.  When the write
    raises once the file is open, the file holds the part of the markup
    that reached it and the line of failure is printed. *)
Theorem timeout_still_captures (w : world) (base : string) (st : state)
    (files : gmap string string) (e : dirent) :
  wiki st = Some files ->
  new_page_exn w (next_page st) = None ->
  let sc := site w (entry_url base e) in
  let name := Pathlib.stem (d_name e) in
  let out := WIKI_DIR +:+ "/" +:+ d_name e in
  exists st' seg,
    render_entry w base e st = (Ok tt, st') /\
    log st' = log st ++ seg /\
    (forall ticks,
        nav sc = None ->
        later sc = Tick <$> ticks ->
        Forall (fun d => JS.ready (projectContent d) = false) (loaded sc :: ticks) ->
        let d := captured sc (List.last ticks (loaded sc)) in
        EvPrint (MsgWarnTimeout name) ∈ seg /\
        EvContent (next_page st) ∈ seg /\
        (capture sc = None -> write_exn w (d_name e) = None ->
         wiki st' = Some (<[d_name e := markup d]> files) /\
         EvPrint (MsgSaved out (String.length (markup d))) ∈ seg /\
         forall x, EvPrint (MsgFailed name x) ∉ seg)) /\
    (is_Some (nav sc) \/
     (exists x d rest, poll_until (loaded sc) (later sc) = Faulted x d rest /\
                       is_timeout x = false) \/
     is_Some (capture sc) \/
     (exists x, write_exn w (d_name e) = Some (FailsAtOpen x)) ->
     wiki st' = Some files /\
     (forall path n, EvPrint (MsgSaved path n) ∉ seg) /\
     exists x, EvPrint (MsgFailed name x) ∈ seg) /\
    (forall warned d x reached,
        nav sc = None -> waited sc = inr (warned, d) -> capture sc = None ->
        write_exn w (d_name e) = Some (FailsAfterOpen x reached) ->
        wiki st' = Some (<[d_name e := Str.take reached (markup (captured sc d))]> files) /\
        (forall path n, EvPrint (MsgSaved path n) ∉ seg) /\
        EvPrint (MsgFailed name x) ∈ seg).
Proof.
  intros Hw Hn sc name out.
  assert (Hseg : forall ev, ev ∈ entry_body w base (next_page st) e ->
                            ev ∈ entry_log w base (next_page st) e).
  { intros ev H. unfold entry_log. right. right. apply elem_of_app. now left. }
  assert (Hnot : forall ev, ev <> announce e -> ev <> EvNewPage (next_page st) ->
                   ev <> EvClose (next_page st) ->
                   ev ∉ entry_body w base (next_page st) e ->
                   ev ∉ entry_log w base (next_page st) e).
  { intros ev H1 H2 H3 H4 Hin. unfold entry_log in Hin.
    apply elem_of_cons in Hin as [Hin|Hin]; [contradiction|].
    apply elem_of_cons in Hin as [Hin|Hin]; [contradiction|].
    apply elem_of_app in Hin as [Hin|Hin]; [contradiction|].
    apply list_elem_of_singleton in Hin. contradiction. }
  eexists _, (entry_log w base (next_page st) e).
  split; [apply (render_entry_eq w base st files e Hw Hn)|].
  split; [reflexivity|]. cbn [wiki]. split; [|split].
  - intros ticks H1 H2 H3.
    set (d0 := List.last ticks (loaded sc)).
    assert (Hwait : waited sc = inr (true, d0)).
    { unfold waited. rewrite H2, (poll_until_timeout _ _ H3). reflexivity. }
    destruct (warned_log w base (next_page st) e d0 H1 Hwait) as [Hwarn Hcont].
    split; [now apply Hseg|]. split; [now apply Hseg|].
    intros H4 H5.
    pose proof (verdict_written w base e true d0 H1 Hwait H4 H5) as Hv.
    destruct (written_log w base (next_page st) e true _ Hv) as [Hs [_ Hf]].
    unfold files_after. rewrite Hv. split; [reflexivity|].
    split; [now apply Hseg|].
    intros x. apply Hnot; try discriminate. apply Hf.
  - intros Hx.
    assert (Hs : exists x, verdict_of w base e = Skipped x).
    { apply verdict_skipped. fold sc.
      destruct Hx as [Hx|[[x [d [rest [Hp Ht]]]]|Hx]]; [now left | | now (right; right)].
      right. left. exists x. unfold waited. now rewrite Hp, Ht. }
    destruct Hs as [x Hv].
    destruct (failed_log w base (next_page st) e x (or_introl Hv)) as [Hf Hnos].
    unfold files_after. rewrite Hv. split; [reflexivity|]. split.
    + intros path n. apply Hnot; try discriminate. apply Hnos.
    + exists x. now apply Hseg.
  - intros warned d x reached H1 H2 H3 H4.
    pose proof (verdict_cut w base e warned d x reached H1 H2 H3 H4) as Hv.
    destruct (failed_log w base (next_page st) e x
                (or_intror (ex_intro _ _ Hv))) as [Hf Hnos].
    unfold files_after. rewrite Hv. split; [reflexivity|]. split.
    + intros path n. apply Hnot; try discriminate. apply Hnos.
    + now apply Hseg.
Qed.

Lemma timeout_still_captures_witness :
  let delta := Dirent "delta.html" true in
  let st0 := State (Some ∅) ∅ 0 [] in
  wiki st0 = Some ∅ /\
  new_page_exn w_torn (next_page st0) = None /\
  exists st' seg,
    render_entry w_torn (base_url w_torn) delta st0 = (Ok tt, st') /\
    log st' = log st0 ++ seg /\
    EvPrint (MsgWarnTimeout "delta") ∈ seg /\
    EvContent 0 ∈ seg /\
    wiki st' = Some (<["delta.html" := markup fort_doc]> ∅) /\
    EvPrint (MsgSaved "wiki/delta.html" 43) ∈ seg /\
    forall x, EvPrint (MsgFailed "delta" x) ∉ seg.
Proof.
  intros delta st0. split; [reflexivity|]. split; [reflexivity|].
  destruct (timeout_still_captures w_torn (base_url w_torn) st0 ∅ delta
              eq_refl eq_refl) as [st' [seg [Hr [Hl [Ht _]]]]].
  exists st', seg. split; [exact Hr|]. split; [exact Hl|].
  destruct (Ht [loading_doc] eq_refl eq_refl) as [Hwarn [Hcont Hok]].
  { repeat constructor. }
  split; [exact Hwarn|]. split; [exact Hcont|].
  exact (Hok eq_refl eq_refl).
Defined.

(** The claim as C3 states it fails twice.  The page of beta times out and
    is then lost: the warning is printed, the capture raises, the entry is
    reported failed and no file is written for it.  And the write of
    alpha.html raises once the file is open: on this path, which is not the
    timeout, a file is produced. *)
Lemma timeout_claim_fails :
  let beta := Dirent "beta.html" true in
  let st0 := State (Some ∅) ∅ 0 [] in
  nav (site w_torn (entry_url (base_url w_torn) beta)) = None /\
  (render_entry w_torn (base_url w_torn) beta st0).1 = Ok tt /\
  log (render_entry w_torn (base_url w_torn) beta st0).2 =
    [announce beta; EvNewPage 0; EvOn 0;
     EvGoto 0 "http://127.0.0.1:8000/data.html?id=beta"; EvWait 0;
     EvPrint (MsgWarnTimeout "beta"); EvContent 0;
     EvPrint (MsgFailed "beta" (OtherError "Error" "Page crashed")); EvClose 0] /\
  wiki (render_entry w_torn (base_url w_torn) beta st0).2 = Some ∅ /\
  file_of (wiki (run w_torn).2) "beta.html" = None /\
  EvPrint (MsgFailed "alpha" disk_full) ∈ log (run w_torn).2 /\
  file_of (wiki (run w_torn).2) "alpha.html" = Some "<div id=".
Proof.
  intros beta st0. repeat split; try (vm_compute; reflexivity).
  vm_compute. repeat first [left | right].
Qed.

End Run.

(** * Further properties of build.py *)

(** ** Discovery and identifiers *)

Section MoreDiscovery.

Lemma entries_same_name (a b : dirent) :
  is_entry a = true -> is_entry b = true -> d_name a = d_name b -> a = b.
Proof.
  intros Ha Hb Hn. apply is_entry_iff in Ha as [Ha _], Hb as [Hb _].
  destruct a, b; simpl in *. congruence.
Qed.

(** X1. The order in which the directory yields its children does not
    matter: two listings of the same children give the same entries in the
    same order. *)
Theorem discover_order_independent (l1 l2 : list dirent) :
  l1 ≡ₚ l2 -> discover l1 = discover l2.
Proof.
  intros Hp.
  apply (StronglySorted_unique_strong path_le);
    [|apply discover_sorted|apply discover_sorted|].
  - intros a b Ha Hb Hab Hba.
    apply discover_elem in Ha as [_ Ha], Hb as [_ Hb].
    apply (entries_same_name a b Ha Hb).
    unfold path_le in *. now apply (anti_symm String.le).
  - rewrite !discover_perm. now rewrite Hp.
Qed.

Lemma discover_order_independent_witness :
  [Dirent "b.html" true; Dirent "a.HTML" true; Dirent "c.txt" true]
    ≡ₚ [Dirent "c.txt" true; Dirent "a.HTML" true; Dirent "b.html" true] /\
  discover [Dirent "b.html" true; Dirent "a.HTML" true; Dirent "c.txt" true]
  = discover [Dirent "c.txt" true; Dirent "a.HTML" true; Dirent "b.html" true].
Proof.
  assert (Hp : [Dirent "b.html" true; Dirent "a.HTML" true; Dirent "c.txt" true]
                 ≡ₚ [Dirent "c.txt" true; Dirent "a.HTML" true; Dirent "b.html" true]).
  { exact (Permutation_rev [Dirent "b.html" true; Dirent "a.HTML" true;
                             Dirent "c.txt" true]). }
  split; [exact Hp | exact (discover_order_independent _ _ Hp)].
Defined.

(** X2. An entry always has an identifier: its name is the identifier
    followed by a suffix of five characters, and the identifier is not
    empty.  So a file named just ".html" is no entry. *)
Theorem entry_identifier_nonempty (f : dirent) :
  is_entry f = true ->
  Pathlib.stem (d_name f) <> "" /\
  String.length (d_name f) = String.length (Pathlib.stem (d_name f)) + 5.
Proof.
  intros Hf. apply is_entry_iff in Hf as [_ Hs].
  assert (Hlen : String.length (Pathlib.suffix (d_name f)) = 5).
  { rewrite <- lower_length, Hs. reflexivity. }
  split.
  - unfold Pathlib.suffix, Pathlib.stem in *.
    destruct (Pathlib.split_at (d_name f)) as [i|] eqn:Hi; [|discriminate].
    unfold Pathlib.split_at in Hi.
    destruct (Str.rfind "." (d_name f)) as [j|]; [|discriminate].
    destruct ((0 <? j) && (j <? String.length (d_name f) - 1)) eqn:Hb; [|discriminate].
    injection Hi as ->. apply andb_true_iff in Hb as [H0 H1].
    apply Nat.ltb_lt in H0, H1.
    intros Hempty.
    assert (Hl : String.length (Str.take i (d_name f)) = i) by (apply take_length; lia).
    rewrite Hempty in Hl. simpl in Hl. lia.
  - rewrite <- (stem_suffix (d_name f)) at 1. rewrite app_length, Hlen. reflexivity.
Qed.

Lemma entry_identifier_nonempty_witness :
  is_entry (Dirent "Kandy.Html" true) = true /\
  Pathlib.stem "Kandy.Html" <> "" /\
  String.length "Kandy.Html" = String.length (Pathlib.stem "Kandy.Html") + 5.
Proof.
  split; [reflexivity|].
  exact (entry_identifier_nonempty (Dirent "Kandy.Html" true) eq_refl).
Defined.

(** X3. The address an entry is rendered from depends on its identifier
    only, and different identifiers give different addresses: two entries
    are rendered from the same address exactly when their names differ at
    most in the suffix. *)
Theorem entry_url_same_iff (base : string) (e1 e2 : dirent) :
  entry_url base e1 = entry_url base e2 <->
  Pathlib.stem (d_name e1) = Pathlib.stem (d_name e2).
Proof.
  unfold entry_url. split; [|now intros ->].
  intros H. repeat apply (inj (String.app _)) in H. exact H.
Qed.

End MoreDiscovery.

(** ** The readiness predicate under changes of the text *)

Section MoreReadiness.

Import JS.

(** X4. White space around the text, of any of the kinds trim knows, does
    not change the answer of the predicate; in particular a container that
    holds white space only is never ready. *)
Theorem ready_ignores_outer_space (el el' : element) (pre post : jsstring) :
  forallb is_space pre = true -> forallb is_space post = true ->
  raw_text el' = pre ++ raw_text el ++ post ->
  ready (Some el') = ready (Some el) /\
  (raw_text el = [] -> ready (Some el') = false).
Proof.
  intros Hpre Hpost Hraw.
  assert (Heq : ready (Some el') = ready (Some el)).
  { unfold ready. now rewrite Hraw, (trim_spaces_around pre _ post Hpre Hpost). }
  split; [exact Heq|]. intros Hnil. rewrite Heq. unfold ready. now rewrite Hnil.
Qed.

Lemma ready_ignores_outer_space_witness :
  let el := Element (Some (lit "Galle")) None in
  let el' := Element None (Some ([0xA0; 0x9] ++ lit "Galle" ++ [0x2028; 0x20])%N) in
  forallb is_space [0xA0; 0x9]%N = true /\
  forallb is_space [0x2028; 0x20]%N = true /\
  raw_text el' = ([0xA0; 0x9] ++ raw_text el ++ [0x2028; 0x20])%N /\
  ready (Some el') = ready (Some el).
Proof.
  intros el el'.
  split; [reflexivity|]. split; [reflexivity|]. split; [reflexivity|].
  apply (ready_ignores_outer_space el el' [0xA0; 0x9]%N [0x2028; 0x20]%N);
    reflexivity.
Defined.

Lemma space_not_letter (c : N) : is_space c = true -> (c < 65 \/ 122 < c)%N.
Proof.
  intros H. unfold is_space in H.
  repeat (apply orb_true_iff in H as [H|H]);
    try (apply N.eqb_eq in H; lia).
  apply andb_true_iff in H as [H1 H2]. apply N.leb_le in H1. lia.
Qed.

Lemma is_space_lower (c : N) : is_space (lower_unit c) = is_space c.
Proof.
  unfold lower_unit.
  destruct ((65 <=? c) && (c <=? 90))%N eqn:E; [|reflexivity].
  apply andb_true_iff in E as [E1 E2]. apply N.leb_le in E1, E2.
  destruct (is_space c) eqn:H1; [apply space_not_letter in H1; lia|].
  destruct (is_space (c + 32)) eqn:H2; [apply space_not_letter in H2; lia|].
  reflexivity.
Qed.

Lemma trimStart_lower (s : jsstring) :
  trimStart (toLowerCase s) = toLowerCase (trimStart s).
Proof.
  unfold toLowerCase. induction s as [|a s IH]; simpl; [reflexivity|].
  rewrite is_space_lower. destruct (is_space a); [exact IH | reflexivity].
Qed.

Lemma trim_lower (s : jsstring) : trim (toLowerCase s) = toLowerCase (trim s).
Proof.
  unfold trim, trimEnd. rewrite trimStart_lower.
  unfold toLowerCase at 1. rewrite <- map_rev. fold (toLowerCase (rev (trimStart s))).
  rewrite trimStart_lower. unfold toLowerCase. now rewrite map_rev.
Qed.

Lemma ready_via_lower (el : element) :
  ready (Some el) =
    match trim (toLowerCase (raw_text el)) with
    | [] => false
    | l => negb (includes SENTINEL l)
    end.
Proof.
  rewrite trim_lower. unfold ready.
  destruct (trim (raw_text el)) as [|c t]; [reflexivity|].
  cbn [toLowerCase map].
  change (lower_unit c :: map lower_unit t) with (toLowerCase (c :: t)).
  destruct (includes SENTINEL (toLowerCase (c :: t))); reflexivity.
Qed.

(** X5. The predicate does not see the case of letters: two containers
    whose texts agree once lowercased get the same answer. *)
Theorem ready_case_insensitive (el el' : element) :
  toLowerCase (raw_text el) = toLowerCase (raw_text el') ->
  ready (Some el) = ready (Some el').
Proof. intros H. rewrite !ready_via_lower. now rewrite H. Qed.

Lemma ready_case_insensitive_witness :
  let el := Element (Some (lit "Now LOADING... wait")) None in
  let el' := Element (Some (lit "now loading... WAIT")) None in
  toLowerCase (raw_text el) = toLowerCase (raw_text el') /\
  ready (Some el) = ready (Some el') /\
  ready (Some el) = false.
Proof.
  intros el el'. split; [reflexivity|]. split; [|reflexivity].
  apply (ready_case_insensitive el el'). reflexivity.
Defined.

End MoreReadiness.

(** ** What the turns print and where they navigate *)

Section MoreLog.

Variable w : world.

Lemma console_origin (msgs : list console_message) (ev : event) :
  ev ∈ flat_map console_handler msgs ->
  exists m, m ∈ msgs /\ (c_type m = "error" \/ c_type m = "warning") /\
            ev = EvPrint (MsgConsole (c_type m) (c_text m)).
Proof.
  induction msgs as [|m msgs IH]; simpl; [inversion 1|].
  intros Hin. apply elem_of_app in Hin as [Hin | Hin].
  - unfold console_handler in Hin.
    destruct (bool_decide (c_type m = "error")) eqn:E1;
      [apply bool_decide_eq_true in E1|
       destruct (bool_decide (c_type m = "warning")) eqn:E2;
       [apply bool_decide_eq_true in E2|]]; simpl in Hin.
    + apply list_elem_of_singleton in Hin. exists m. split; [left|auto].
    + apply list_elem_of_singleton in Hin. exists m. split; [left|auto].
    + inversion Hin.
  - destruct (IH Hin) as [m' [Hm' H]]. exists m'. split; [now right | exact H].
Qed.

Ltac split_in H :=
  repeat first
    [ apply elem_of_cons in H as [H|H]
    | apply elem_of_app in H as [H|H]
    | apply elem_of_nil in H; contradiction ].

(** Every action of a turn between the making of the page and its closing,
    told by its kind. *)
Lemma entry_body_events (base : string) (p : nat) (e : dirent) (ev : event) :
  ev ∈ entry_body w base p e ->
  ev = EvOn p \/ ev = EvGoto p (entry_url base e) \/
  ev = EvWait p \/ ev = EvContent p \/
  ev = EvWrite (WIKI_DIR +:+ "/" +:+ d_name e) \/
  ev = EvPrint (MsgWarnTimeout (Pathlib.stem (d_name e))) \/
  (exists x, ev = EvPrint (MsgFailed (Pathlib.stem (d_name e)) x)) \/
  (exists m, m ∈ console (site w (entry_url base e)) /\
             (c_type m = "error" \/ c_type m = "warning") /\
             ev = EvPrint (MsgConsole (c_type m) (c_text m))) \/
  (exists warned html,
      verdict_of w base e = Written warned html /\
      ev = EvPrint (MsgSaved (WIKI_DIR +:+ "/" +:+ d_name e) (String.length html))).
Proof.
  unfold entry_body, verdict_of. intros Hin.
  apply elem_of_cons in Hin as [-> | Hin]; [tauto|].
  apply elem_of_cons in Hin as [-> | Hin]; [tauto|].
  apply elem_of_app in Hin as [Hin | Hin].
  { apply console_origin in Hin. tauto. }
  destruct (nav _) as [x|].
  { split_in Hin; subst; eauto 10. }
  apply elem_of_cons in Hin as [-> | Hin]; [tauto|].
  destruct (waited _) as [x|[warned d]].
  { split_in Hin; subst; eauto 10. }
  apply elem_of_app in Hin as [Hin | Hin].
  { destruct warned; split_in Hin; subst; tauto. }
  apply elem_of_cons in Hin as [-> | Hin]; [tauto|].
  destruct (capture _) as [x|].
  { split_in Hin; subst; eauto 10. }
  apply elem_of_cons in Hin as [-> | Hin]; [tauto|].
  destruct (write_exn _ _) as [f|]; split_in Hin; subst; eauto 12.
Qed.

Lemma loop_log_origin (np : nat) (es : list dirent) (ev : event) :
  ev ∈ loop_log w np es ->
  exists e p, e ∈ es /\
    (ev = announce e \/ ev = EvNewPage p \/ ev = EvClose p \/
     ev ∈ entry_body w (base_url w) p e).
Proof.
  revert np. induction es as [|a es IH]; intros np; cbn [loop_log]; [inversion 1|].
  destruct (new_page_exn w np).
  - intros Hin. apply list_elem_of_singleton in Hin as ->.
    exists a, np. split; [left | now left].
  - intros Hin. apply elem_of_app in Hin as [Hin | Hin].
    + exists a, np. split; [left|]. unfold entry_log in Hin.
      apply elem_of_cons in Hin as [-> | Hin]; [now left|].
      apply elem_of_cons in Hin as [-> | Hin]; [tauto|].
      apply elem_of_app in Hin as [Hin | Hin]; [tauto|].
      apply list_elem_of_singleton in Hin as ->. tauto.
    + destruct (IH (S np) Hin) as [e [p [He H]]].
      exists e, p. split; [now right | exact H].
Qed.

(** Where an action of the log of a run comes from. *)
Lemma run_log_origin (ev : event) :
  ev ∈ log (run w).2 ->
  ev ∈ prelude w \/
  ev ∈ [EvPrint MsgNothing; EvBrowserClose; EvStop; EvPrint MsgDone] \/
  exists listing, entries_dir w = Directory listing /\
                  ev ∈ loop_log w 0 (discover listing).
Proof.
  destruct (entries_dir w) as [| |listing] eqn:Hd;
    try (rewrite run_no_directory by (now rewrite Hd); inversion 1).
  destruct (discover listing) as [|e0 es0] eqn:He.
  - rewrite (run_nothing w listing Hd He). cbn [snd log]. intros Hin.
    apply elem_of_app in Hin as [Hin | Hin]; [now left|].
    right. left. split_in Hin; subst; repeat constructor.
  - rewrite (run_entries w listing Hd) by (rewrite He; discriminate).
    rewrite He. cbn [snd log]. intros Hin.
    apply elem_of_app in Hin as [Hin | Hin]; [now left|].
    apply elem_of_app in Hin as [Hin | Hin].
    { right. right. exists listing. split; [reflexivity|]. now rewrite He. }
    right. left.
    destruct (loop_outcome w 0 (e0 :: es0)); split_in Hin; subst; repeat constructor.
Qed.

End MoreLog.

(** ** Navigation, console lines and the end of an aborted run *)

Section MoreRun.

Import Scenarios MoreScenarios.

(** X6. The script navigates nowhere but to the template page on the
    local server, with the identifier of a discovered entry for query. *)
Theorem navigates_only_to_template (w : world) (p : nat) (url : string) :
  EvGoto p url ∈ log (run w).2 ->
  exists listing e,
    entries_dir w = Directory listing /\ e ∈ discover listing /\
    url = base_url w +:+ "/" +:+ TEMPLATE +:+ "?id=" +:+ Pathlib.stem (d_name e).
Proof.
  intros Hin. apply run_log_origin in Hin as [Hin | [Hin | [listing [Hd Hin]]]].
  - repeat (apply elem_of_cons in Hin as [Hin|Hin]; [discriminate|]). inversion Hin.
  - repeat (apply elem_of_cons in Hin as [Hin|Hin]; [discriminate|]). inversion Hin.
  - apply loop_log_origin in Hin as [e [q [He [H | [H | [H | H]]]]]];
      try discriminate.
    apply entry_body_events in H
      as [H|[H|[H|[H|[H|[H|[[x H]|[[m [_ [_ H]]]|[wd [html [_ H]]]]]]]]]]];
      try discriminate.
    injection H as -> ->. exists listing, e. repeat split; assumption.
Qed.

Lemma navigates_only_to_template_witness :
  EvGoto 1 "http://127.0.0.1:8000/data.html?id=beta" ∈ log (run w_mixed).2 /\
  exists listing e,
    entries_dir w_mixed = Directory listing /\ e ∈ discover listing /\
    "http://127.0.0.1:8000/data.html?id=beta" =
      base_url w_mixed +:+ "/" +:+ TEMPLATE +:+ "?id=" +:+ Pathlib.stem (d_name e).
Proof.
  assert (Hin : EvGoto 1 "http://127.0.0.1:8000/data.html?id=beta"
                  ∈ log (run w_mixed).2).
  { vm_compute. repeat first [left | right]. }
  split; [exact Hin | exact (navigates_only_to_template w_mixed 1 _ Hin)].
Defined.

(** X7. Of what the pages write on their console, only errors and warnings
    are printed, and only those of the page of a discovered entry. *)
Theorem prints_console_errors_and_warnings_only (w : world) (type text : string) :
  EvPrint (MsgConsole type text) ∈ log (run w).2 ->
  (type = "error" \/ type = "warning") /\
  exists listing e,
    entries_dir w = Directory listing /\ e ∈ discover listing /\
    ConsoleMessage type text ∈ console (site w (entry_url (base_url w) e)).
Proof.
  intros Hin. apply run_log_origin in Hin as [Hin | [Hin | [listing [Hd Hin]]]].
  - repeat (apply elem_of_cons in Hin as [Hin|Hin]; [discriminate|]). inversion Hin.
  - repeat (apply elem_of_cons in Hin as [Hin|Hin]; [discriminate|]). inversion Hin.
  - apply loop_log_origin in Hin as [e [q [He [H | [H | [H | H]]]]]];
      try discriminate.
    apply entry_body_events in H
      as [H|[H|[H|[H|[H|[H|[[x H]|[[m [Hm [Ht H]]]|[wd [html [_ H]]]]]]]]]]];
      try discriminate.
    injection H as -> ->. split; [exact Ht|].
    exists listing, e. destruct m. repeat split; assumption.
Qed.

Lemma prints_console_errors_and_warnings_only_witness :
  EvPrint (MsgConsole "warning" "slow network") ∈ log (run w_mixed).2 /\
  ("warning" = "error" \/ "warning" = "warning") /\
  exists listing e,
    entries_dir w_mixed = Directory listing /\ e ∈ discover listing /\
    ConsoleMessage "warning" "slow network"
      ∈ console (site w_mixed (entry_url (base_url w_mixed) e)).
Proof.
  assert (Hin : EvPrint (MsgConsole "warning" "slow network") ∈ log (run w_mixed).2).
  { vm_compute. repeat first [left | right]. }
  split; [exact Hin|].
  exact (prints_console_errors_and_warnings_only w_mixed _ _ Hin).
Defined.

(** X8. When an exception ends the run, the browser is not closed by the
    script and the closing line is not printed; the last thing that
    happens is the exit of the Playwright context manager. *)
Theorem aborted_run_skips_teardown (w : world) (x : exn) :
  (run w).1 = Raise x ->
  (EvBrowserClose ∉ log (run w).2) /\
  (EvPrint MsgDone ∉ log (run w).2) /\
  exists l, log (run w).2 = l ++ [EvStop].
Proof.
  intros Hr. rewrite run_outcome_eq in Hr.
  destruct (entries_dir w) as [| |listing] eqn:Hd; try discriminate.
  assert (Hne : discover listing <> []) by (intros E; rewrite E in Hr; discriminate).
  rewrite (run_entries w listing Hd Hne), Hr. cbn [snd log].
  assert (Hno : forall ev, ev = EvBrowserClose \/ ev = EvPrint MsgDone ->
                  ev ∉ prelude w ++ loop_log w 0 (discover listing) ++ [EvStop]).
  { intros ev Hev Hin.
    apply elem_of_app in Hin as [Hin | Hin].
    { destruct Hev as [-> | ->];
        repeat (apply elem_of_cons in Hin as [Hin|Hin]; [discriminate|]);
        inversion Hin. }
    apply elem_of_app in Hin as [Hin | Hin].
    2:{ apply list_elem_of_singleton in Hin. destruct Hev; congruence. }
    apply loop_log_origin in Hin as [e [q [He [H | [H | [H | H]]]]]];
      unfold announce in *; try (destruct Hev; congruence).
    apply entry_body_events in H
      as [H|[H|[H|[H|[H|[H|[[y H]|[[m [_ [_ H]]]|[wd [html [_ H]]]]]]]]]]];
      destruct Hev; congruence. }
  split; [apply Hno; now left|]. split; [apply Hno; now right|].
  exists (prelude w ++ loop_log w 0 (discover listing)). now rewrite <- app_assoc.
Qed.

Lemma aborted_run_skips_teardown_witness :
  (run w_gone).1 = Raise browser_gone /\
  (EvBrowserClose ∉ log (run w_gone).2) /\
  (EvPrint MsgDone ∉ log (run w_gone).2) /\
  exists l, log (run w_gone).2 = l ++ [EvStop].
Proof.
  split; [reflexivity|].
  exact (aborted_run_skips_teardown w_gone browser_gone eq_refl).
Defined.

End MoreRun.

(** ** The files of wiki/ across a run *)

Section MoreFiles.

Import Scenarios MoreScenarios.



(** What the loop does to a file: it leaves it, or a turn of an entry of
    that name settles it. *)
Lemma loop_files_cases (w : world) (np : nat) (files : gmap string string)
    (es : list dirent) (n : string) :
  loop_files w np files es !! n = files !! n \/
  exists e,
    e ∈ es /\ d_name e = n /\
    loop_files w np files es !! n
      = settle (verdict_of w (base_url w) e) (files !! n).
Proof.
  revert np files. induction es as [|a es IH]; intros np files; cbn [loop_files].
  - now left.
  - destruct (new_page_exn w np); [now left|].
    destruct (decide (d_name a = n)) as [Hn | Hn].
    + right. exists a. split; [left|]. split; [exact Hn|]. subst n.
      destruct (loop_files_either w (S np) (files_after w (base_url w) files a) es a)
        as [H | H]; rewrite H, files_after_lookup;
        rewrite bool_decide_eq_true_2 by reflexivity;
        [reflexivity | apply settle_idem].
    + destruct (IH (S np) (files_after w (base_url w) files a)) as [Heq | [e [He [Hen H]]]].
      * left. rewrite Heq. unfold files_after.
        destruct (verdict_of w (base_url w) a); try reflexivity;
          now apply lookup_insert_ne.
      * right. exists e. split; [now right|]. split; [exact Hen|].
        rewrite H. f_equal. unfold files_after.
        destruct (verdict_of w (base_url w) a); try reflexivity;
          now apply lookup_insert_ne.
Qed.

Lemma run_files (w : world) (n : string) :
  file_of (wiki (run w).2) n = file_of (wiki_before w) n \/
  exists listing e,
    entries_dir w = Directory listing /\ e ∈ discover listing /\ d_name e = n /\
    file_of (wiki (run w).2) n
      = settle (verdict_of w (base_url w) e) (file_of (wiki_before w) n).
Proof.
  assert (Hfb : files_before w !! n = file_of (wiki_before w) n).
  { unfold files_before, file_of. destruct (wiki_before w); [reflexivity|].
    apply lookup_empty. }
  destruct (entries_dir w) as [| |listing] eqn:Hd;
    try (rewrite run_no_directory by (now rewrite Hd); now left).
  destruct (discover listing) as [|e0 es0] eqn:He.
  - rewrite (run_nothing w listing Hd He). left. exact Hfb.
  - rewrite (run_entries w listing Hd) by (rewrite He; discriminate).
    rewrite He. cbn [snd wiki]. unfold file_of at 1 3. cbn [mbind option_bind].
    destruct (loop_files_cases w 0 (files_before w) (e0 :: es0) n)
      as [Heq | [e [Hin [Hn Hl]]]].
    + left. now rewrite Heq.
    + right. exists listing, e. rewrite He, <- Hfb. repeat split; assumption.
Qed.



(** X10. A file of wiki/ whose name is the name of no discovered entry is
    after the run what it was before: outputs of entries that are gone are
    neither removed nor touched. *)
Theorem other_files_untouched (w : world) (n : string) :
  (forall listing e, entries_dir w = Directory listing ->
                     e ∈ discover listing -> d_name e <> n) ->
  file_of (wiki (run w).2) n = file_of (wiki_before w) n.
Proof.
  intros Hother.
  destruct (run_files w n) as [Heq | [listing [e [Hd [He [Hn _]]]]]];
    [exact Heq|].
  exfalso. exact (Hother listing e Hd He Hn).
Qed.

Lemma other_files_untouched_witness :
  (forall listing e, entries_dir w_stale = Directory listing ->
                     e ∈ discover listing -> d_name e <> "old.html") /\
  file_of (wiki (run w_stale).2) "old.html" = Some "<p>old</p>".
Proof.
  assert (H : forall listing e, entries_dir w_stale = Directory listing ->
                e ∈ discover listing -> d_name e <> "old.html").
  { intros listing e Hd He. injection Hd as <-.
    vm_compute in He.
    repeat (apply elem_of_cons in He as [-> | He]; [discriminate|]).
    inversion He. }
  split; [exact H|].
  exact (other_files_untouched w_stale "old.html" H).
Defined.

Lemma loop_files_idem (w : world) (files : gmap string string) (es : list dirent) :
  (forall k, k < length es -> new_page_exn w k = None) ->
  loop_files w 0 (loop_files w 0 files es) es = loop_files w 0 files es.
Proof.
  intros Hnp. apply map_eq. intros n.
  pose proof (loop_files_lookup w 0 (loop_files w 0 files es) es (Dirent n true) Hnp) as H1.
  pose proof (loop_files_lookup w 0 files es (Dirent n true) Hnp) as H2.
  cbn [d_name] in H1, H2. rewrite H1.
  case_bool_decide; [|reflexivity].
  rewrite H2. apply settle_idem.
Qed.

(** X11. Building twice gives what building once gives: when a page can be
    made for every entry and the pages and the disk behave the second
    time as they did the first, the second run leaves wiki/ as the first
    left it. *)
Theorem rerun_leaves_wiki_unchanged (w : world) (listing : list dirent) :
  entries_dir w = Directory listing ->
  (forall k, k < length (discover listing) -> new_page_exn w k = None) ->
  wiki (run (again w)).2 = wiki (run w).2.
Proof.
  intros Hd Hnp.
  assert (Hd' : entries_dir (again w) = Directory listing) by exact Hd.
  destruct (discover listing) as [|e0 es0] eqn:He.
  - rewrite (run_nothing (again w) listing Hd' He).
    unfold again at 1. unfold files_before, with_wiki. cbn [wiki_before snd wiki].
    now rewrite (run_nothing w listing Hd He).
  - assert (Hne : discover listing <> []) by (rewrite He; discriminate).
    rewrite (run_entries (again w) listing Hd' Hne).
    cbn [snd wiki].
    assert (Hfb : files_before (again w)
                  = loop_files w 0 (files_before w) (discover listing)).
    { unfold files_before at 1, again, with_wiki. cbn [wiki_before].
      now rewrite (run_entries w listing Hd Hne). }
    rewrite Hfb. rewrite (run_entries w listing Hd Hne). cbn [snd wiki].
    f_equal. rewrite He in *.
    change (loop_files (again w) 0) with (loop_files w 0).
    now apply loop_files_idem.
Qed.

Lemma rerun_leaves_wiki_unchanged_witness :
  entries_dir w_stale = Directory the_listing /\
  (forall k, k < length (discover the_listing) -> new_page_exn w_stale k = None) /\
  wiki (run (again w_stale)).2 = wiki (run w_stale).2.
Proof.
  split; [reflexivity|]. split; [intros; reflexivity|].
  apply (rerun_leaves_wiki_unchanged w_stale the_listing);
    [reflexivity | intros; reflexivity].
Defined.

End MoreFiles.

(** ** The line of success *)

Section MoreTurn.

Import Scenarios MoreScenarios.

(** X13. The line of success tells the truth: whenever a turn prints that
    a file was saved, the path is that of the entry's output and the file
    is on disk with exactly the size printed. *)
Theorem saved_line_is_truthful (w : world) (base : string) (st : state)
    (files : gmap string string) (e : dirent) :
  wiki st = Some files ->
  new_page_exn w (next_page st) = None ->
  exists st' seg,
    render_entry w base e st = (Ok tt, st') /\
    log st' = log st ++ seg /\
    forall path n,
      EvPrint (MsgSaved path n) ∈ seg ->
      path = WIKI_DIR +:+ "/" +:+ d_name e /\
      exists html, file_of (wiki st') (d_name e) = Some html /\
                   String.length html = n.
Proof.
  intros Hw Hn.
  eexists _, (entry_log w base (next_page st) e).
  split; [apply (render_entry_eq w base st files e Hw Hn)|].
  split; [reflexivity|]. cbn [wiki file_of mbind option_bind].
  intros path n Hin. unfold entry_log, announce in Hin.
  apply elem_of_cons in Hin as [Hin|Hin]; [discriminate|].
  apply elem_of_cons in Hin as [Hin|Hin]; [discriminate|].
  apply elem_of_app in Hin as [Hin|Hin];
    [|apply list_elem_of_singleton in Hin; discriminate].
  apply entry_body_events in Hin
    as [H|[H|[H|[H|[H|[H|[[x H]|[[m [_ [_ H]]]|[wd [html [Hv H]]]]]]]]]]];
    try discriminate.
  injection H as -> ->. split; [reflexivity|].
  exists html. unfold files_after. rewrite Hv.
  split; [apply lookup_insert_eq | reflexivity].
Qed.

Lemma saved_line_is_truthful_witness :
  let beta := Dirent "beta.html" true in
  let st0 := State (Some ∅) ∅ 0 [] in
  wiki st0 = Some ∅ /\
  new_page_exn w_mixed (next_page st0) = None /\
  exists st' seg,
    render_entry w_mixed (base_url w_mixed) beta st0 = (Ok tt, st') /\
    log st' = log st0 ++ seg /\
    forall path n,
      EvPrint (MsgSaved path n) ∈ seg ->
      path = WIKI_DIR +:+ "/" +:+ d_name beta /\
      exists html, file_of (wiki st') (d_name beta) = Some html /\
                   String.length html = n.
Proof.
  intros beta st0. split; [reflexivity|]. split; [reflexivity|].
  apply (saved_line_is_truthful w_mixed (base_url w_mixed) st0 ∅ beta);
    reflexivity.
Defined.

End MoreTurn.

(** ** Distinct entries, pages made, and earlier outputs *)

Section MoreLoop.

Import Scenarios MoreScenarios.

(** X14. In a directory, where no two children have the same name, no two
    entries have the same name: no output file is the output of two
    entries. *)
Theorem entries_have_distinct_names (listing : list dirent) :
  NoDup (d_name <$> listing) -> NoDup (d_name <$> discover listing).
Proof.
  intros Hnd. rewrite discover_perm.
  apply (sublist_NoDup _ (d_name <$> listing)); [exact Hnd|].
  apply fmap_sublist, sublist_filter.
Qed.

Lemma entries_have_distinct_names_witness :
  NoDup (d_name <$> the_listing) /\ NoDup (d_name <$> discover the_listing).
Proof.
  assert (H : NoDup (d_name <$> the_listing)).
  { apply (bool_decide_unpack _). vm_compute. exact I. }
  split; [exact H | exact (entries_have_distinct_names the_listing H)].
Defined.

Lemma loop_next_le (w : world) (np : nat) (es : list dirent) :
  np <= loop_next w np es <= np + length es.
Proof.
  revert np. induction es as [|e es IH]; intros np; cbn [loop_next length]; [lia|].
  destruct (new_page_exn w np); [lia|]. specialize (IH (S np)). lia.
Qed.

Lemma loop_next_ok (w : world) (np : nat) (es : list dirent) :
  loop_outcome w np es = Ok tt <-> loop_next w np es = np + length es.
Proof.
  revert np. induction es as [|e es IH]; intros np; cbn [loop_next loop_outcome length].
  - split; [lia | reflexivity].
  - destruct (new_page_exn w np).
    + split; [discriminate | lia].
    + rewrite IH. lia.
Qed.

(** X15. A run makes at most one page for each entry, and exactly one for
    each when it returns normally: the number of pages made is the number
    of entries exactly when no exception ends the run. *)
Theorem one_page_for_each_entry (w : world) (listing : list dirent) :
  entries_dir w = Directory listing ->
  next_page (run w).2 <= length (discover listing) /\
  ((run w).1 = Ok tt <-> next_page (run w).2 = length (discover listing)).
Proof.
  intros Hd. rewrite run_outcome_eq, Hd.
  destruct (discover listing) as [|e0 es0] eqn:He.
  - rewrite (run_nothing w listing Hd He). simpl. split; [lia | tauto].
  - rewrite (run_entries w listing Hd) by (rewrite He; discriminate).
    rewrite He. cbn [snd next_page].
    pose proof (loop_next_le w 0 (e0 :: es0)).
    split; [lia | apply (loop_next_ok w 0)].
Qed.

Lemma one_page_for_each_entry_witness :
  entries_dir w_gone = Directory the_listing /\
  next_page (run w_gone).2 <= length (discover the_listing) /\
  ((run w_gone).1 = Ok tt <-> next_page (run w_gone).2 = length (discover the_listing)).
Proof.
  split; [reflexivity|].
  exact (one_page_for_each_entry w_gone the_listing eq_refl).
Defined.

(** X16. What wiki/ holds before the run has no bearing on what the run
    does: with any other earlier state of wiki/ the run ends the same way
    and does the same things in the same order. *)
Theorem earlier_outputs_not_consulted (w : world) (old : option (gmap string string)) :
  (run (with_wiki old w)).1 = (run w).1 /\
  log (run (with_wiki old w)).2 = log (run w).2.
Proof.
  destruct (entries_dir w) as [| |listing] eqn:Hd.
  - assert (Hf : path_is_dir (entries_dir w) = false) by now rewrite Hd.
    rewrite (run_no_directory (with_wiki old w) Hf), (run_no_directory w Hf).
    split; reflexivity.
  - assert (Hf : path_is_dir (entries_dir w) = false) by now rewrite Hd.
    rewrite (run_no_directory (with_wiki old w) Hf), (run_no_directory w Hf).
    split; reflexivity.
  - assert (Hd' : entries_dir (with_wiki old w) = Directory listing) by exact Hd.
    destruct (discover listing) as [|e0 es0] eqn:He.
    + rewrite (run_nothing (with_wiki old w) listing Hd' He),
        (run_nothing w listing Hd He). split; reflexivity.
    + assert (Hne : discover listing <> []) by (rewrite He; discriminate).
      rewrite (run_entries (with_wiki old w) listing Hd' Hne),
        (run_entries w listing Hd Hne). split; reflexivity.
Qed.

End MoreLoop.
